(** * AI Object Rotator: the upload / analyse / render / export workflow

    A shallow embedding of [App.tsx] (the React component that owns the
    workflow state and its handlers) and of [services/geminiService.ts]
    (the adapter around the generative-AI SDK), followed by the properties
    of the workflow that the specification states.

    Asynchronous handlers are written in a small trace-and-exception monad:
    a computation yields the list of events it performed (state setters and
    awaited calls, in program order) together with either its result or the
    value it threw.  The React state is recovered by replaying the setter
    events over an [AppState]. *)

From Stdlib Require Import String Ascii List ZArith Bool Arith Lia DecimalString DecimalNat.
Import ListNotations.
Open Scope string_scope.

(* ================================================================== *)
(** ** JavaScript values, thrown values, strings *)

(** Run-time values, as far as the code inspects them.  TypeScript's
    annotations are erased: what [JSON.parse] hands back is whatever the
    service sent. *)
#[warnings="-register-all"]
Inductive jsval : Type :=
| VUndefined
| VNull
| VBool (b : bool)
| VNumber (z : Z)
| VString (s : string)
| VArray (items : list jsval)
| VObject (fields : list (string * jsval)).

(** What a [catch] clause receives: an [Error] instance whose [message]
    is a string; an [Error] instance whose [message] is a value without an
    [includes] method ([undefined], [null], a boolean, a number, a plain
    object), so that [err.message.includes(...)] throws a [TypeError]; or
    a thrown value that is not an [Error].  (A message that brings an
    [includes] of its own, such as an array, is outside this type.) *)
Inductive thrown : Type :=
| ErrorObj (message : string)
| ErrorNoText
| NonError (v : jsval).

Inductive outcome (A : Type) : Type :=
| Returned (a : A)
| Thrown (e : thrown).
Arguments Returned {A} a.
Arguments Thrown {A} e.

(** [s.includes(sub)] *)
Fixpoint includes (s sub : string) : bool :=
  if prefix sub s then true
  else match s with
       | EmptyString => false
       | String _ s' => includes s' sub
       end.

(** Decimal rendering of a number inside a template literal. *)
Definition nat_str (n : nat) : string := NilEmpty.string_of_uint (Nat.to_uint n).

(** JavaScript truthiness. *)
Definition truthy (v : jsval) : bool :=
  match v with
  | VUndefined | VNull => false
  | VBool b => b
  | VNumber z => negb (z =? 0)%Z
  | VString s => negb (s =? "")
  | VArray _ | VObject _ => true
  end.

(** Truthiness of a [string | null] state variable. *)
Definition truthy_str (o : option string) : bool :=
  match o with
  | None => false
  | Some s => negb (s =? "")
  end.

(** Property read [v.name] on a value that is neither [null] nor
    [undefined]; the properties of an object are an association list. *)
Fixpoint lookup_field (fields : list (string * jsval)) (name : string) : jsval :=
  match fields with
  | [] => VUndefined
  | (k, v) :: rest => if k =? name then v else lookup_field rest name
  end.

Definition get_prop (v : jsval) (name : string) : jsval :=
  match v with
  | VObject fields => lookup_field fields name
  | _ => VUndefined
  end.

(** [s.split(',')[1]]: the text between the first and the second comma,
    [undefined] ([None]) when [s] has no comma. *)
Fixpoint upto_comma (s : string) : string :=
  match s with
  | EmptyString => EmptyString
  | String c s' => if Ascii.eqb c "," then EmptyString else String c (upto_comma s')
  end.

Fixpoint split_comma_1 (s : string) : option string :=
  match s with
  | EmptyString => None
  | String c s' => if Ascii.eqb c "," then Some (upto_comma s') else split_comma_1 s'
  end.

(** The URL [fetch] is given for a [string | null] argument. *)
Definition url_of (o : option string) : string :=
  match o with
  | Some s => s
  | None => "null"
  end.

(** [${x}] for a possibly undefined string. *)
Definition interp (o : option string) : string :=
  match o with
  | Some s => s
  | None => "undefined"
  end.

(* ================================================================== *)
(** ** Component state *)

(** [prompt] is the item of the service's array as it came: its
    annotation [string] is not checked anywhere. *)
Record GeneratedImage : Type := {
  src : string;
  prompt : jsval
}.

(** The six [useState] cells of [App]. *)
Record AppState : Type := {
  originalImage : option string;
  generatedImages : list GeneratedImage;
  isObjectRotationOnly : bool;
  isLoading : bool;
  status : string;
  error : string
}.

Definition initialState : AppState :=
  {| originalImage := None;
     generatedImages := [];
     isObjectRotationOnly := false;
     isLoading := false;
     status := "";
     error := "" |}.

(** A blob, by its content. *)
Inductive Blob : Type := BlobOf (content : string).

(** A JSZip instance: its entries, in insertion order. *)
Definition Zip : Type := list (string * Blob).

(** Events of a handler, in program order: the state setters, and the
    awaited calls with what they resolved to. *)
Inductive event : Type :=
| SetOriginalImage (v : option string)
| SetGeneratedImages (l : list GeneratedImage)
| SetIsObjectRotationOnly (b : bool)
| SetIsLoading (b : bool)
| SetStatus (s : string)
| SetError (s : string)
| ReadAsDataURL (result : option string)
| GetRotationPrompts (objectOnly : bool) (r : outcome (option (list jsval)))
| GenerateRotatedImage (i : nat) (p : jsval) (r : outcome string)
| Timeout (ms : Z)
| Fetch (url : string) (r : outcome Blob)
| GenerateAsync (r : outcome unit)
| LinkClick (download : string) (content : Zip)
| ConsoleError.

Definition apply_event (s : AppState) (e : event) : AppState :=
  match e with
  | SetOriginalImage v =>
      {| originalImage := v; generatedImages := generatedImages s;
         isObjectRotationOnly := isObjectRotationOnly s;
         isLoading := isLoading s; status := status s; error := error s |}
  | SetGeneratedImages l =>
      {| originalImage := originalImage s; generatedImages := l;
         isObjectRotationOnly := isObjectRotationOnly s;
         isLoading := isLoading s; status := status s; error := error s |}
  | SetIsObjectRotationOnly b =>
      {| originalImage := originalImage s; generatedImages := generatedImages s;
         isObjectRotationOnly := b;
         isLoading := isLoading s; status := status s; error := error s |}
  | SetIsLoading b =>
      {| originalImage := originalImage s; generatedImages := generatedImages s;
         isObjectRotationOnly := isObjectRotationOnly s;
         isLoading := b; status := status s; error := error s |}
  | SetStatus m =>
      {| originalImage := originalImage s; generatedImages := generatedImages s;
         isObjectRotationOnly := isObjectRotationOnly s;
         isLoading := isLoading s; status := m; error := error s |}
  | SetError m =>
      {| originalImage := originalImage s; generatedImages := generatedImages s;
         isObjectRotationOnly := isObjectRotationOnly s;
         isLoading := isLoading s; status := status s; error := m |}
  | _ => s
  end.

Definition run_events (s : AppState) (t : list event) : AppState :=
  fold_left apply_event t s.

(* ================================================================== *)
(** ** The handler monad: a trace, and a result or a thrown value *)

Definition M (A : Type) : Type := (list event * outcome A)%type.

Definition ret {A} (a : A) : M A := ([], Returned a).
Definition throw {A} (e : thrown) : M A := ([], Thrown e).
Definition emit (e : event) : M unit := ([e], Returned tt).

Definition bind {A B} (m : M A) (k : A -> M B) : M B :=
  match m with
  | (t, Returned a) => let (t', r) := k a in ((t ++ t')%list, r)
  | (t, Thrown e) => (t, Thrown e)
  end.

(** [try { body } catch (err) { handler }] *)
Definition try_catch {A} (body : M A) (handler : thrown -> M A) : M A :=
  match body with
  | (t, Returned a) => (t, Returned a)
  | (t, Thrown e) => let (t', r) := handler e in ((t ++ t')%list, r)
  end.

(** [try { body } finally { fin }] *)
Definition try_finally {A} (body : M A) (fin : M unit) : M A :=
  let (t, r) := body in
  let (t', r') := fin in
  ((t ++ t')%list, match r' with
            | Thrown e => Thrown e
            | Returned _ => r
            end).

Declare Scope handler_scope.
Delimit Scope handler_scope with handler.
Notation "x <- m ;; k" := (bind m (fun x => k))
  (at level 61, m at next level, right associativity) : handler_scope.
Notation "m ;; k" := (bind m (fun _ => k))
  (at level 61, right associativity) : handler_scope.
Open Scope handler_scope.

Definition trace {A} (m : M A) : list event := fst m.
Definition result {A} (m : M A) : outcome A := snd m.

(** The state a handler leaves behind when started in [s]. *)
Definition exec {A} (m : M A) (s : AppState) : AppState := run_events s (trace m).

(* ================================================================== *)
(** ** services/geminiService.ts *)

(** One part of a candidate's content; only [inlineData] is looked at. *)
Record InlineData : Type := {
  inline_mimeType : option string;
  inline_data : option string
}.

Record Part : Type := {
  inlineData : option InlineData
}.

(** The SDK, as the adapter sees it.  [generateContent] either rejects or
    resolves.  For the prompt request the adapter only feeds
    [response.text] to [JSON.parse]: the answer is the parsed value, [None]
    when [JSON.parse] throws.  For the image request the adapter only reads
    [response.candidates?.[0]?.content?.parts]: the answer is that list,
    [None] when a link of the chain is undefined.  The [nat] numbers the
    image requests of a run: equal requests need not get equal answers. *)
Record GenAI : Type := {
  promptsResponse : option string -> string -> bool -> outcome (option jsval);
  imageResponse : nat -> option string -> string -> jsval -> outcome (option (list Part))
}.

Definition array_items (v : jsval) : option (list jsval) :=
  match v with
  | VArray items => Some items
  | _ => None
  end.

(** [getRotationPrompts].  The instruction text that [getPovPrompt] picks
    for [isObjectRotationOnly] only goes into the request.  A result is
    returned when [result && Array.isArray(result.prompts) &&
    result.prompts.length === 3]; console output is not part of what the
    function returns. *)
Definition getRotationPrompts (ai : GenAI)
    (base64Image : option string) (mimeType : string) (isObjectRotationOnly : bool)
    : outcome (list jsval) :=
  match promptsResponse ai base64Image mimeType isObjectRotationOnly with
  | Thrown e => Thrown e
  | Returned None =>
      Thrown (ErrorObj
        "The AI failed to return valid rotation instructions. Please try a different image.")
  | Returned (Some result) =>
      match (if truthy result then array_items (get_prop result "prompts") else None) with
      | Some prompts =>
          if (List.length prompts =? 3)%nat then Returned prompts
          else Thrown (ErrorObj
            "Could not get valid rotation prompts from the AI. The response was malformed.")
      | None =>
          Thrown (ErrorObj
            "Could not get valid rotation prompts from the AI. The response was malformed.")
      end
  end.

(** [parts.find(part => part.inlineData)] *)
Fixpoint find_inline (parts : list Part) : option InlineData :=
  match parts with
  | [] => None
  | p :: rest =>
      match inlineData p with
      | Some d => Some d
      | None => find_inline rest
      end
  end.

(** [generateRotatedImage], for the [k]-th image request of a run. *)
Definition generateRotatedImage (ai : GenAI) (k : nat)
    (base64Image : option string) (mimeType : string) (prompt : jsval)
    : outcome string :=
  match imageResponse ai k base64Image mimeType prompt with
  | Thrown e => Thrown e
  | Returned parts =>
      match (match parts with Some ps => find_inline ps | None => None end) with
      | Some d =>
          Returned ("data:" ++ interp (inline_mimeType d) ++ ";base64," ++ interp (inline_data d))
      | None =>
          Thrown (ErrorObj
            "The AI did not return an image. It might not be able to process this request.")
      end
  end.

(** What [App] imports from the service module.  The orchestration is
    stated over any implementation of the two functions; [geminiService]
    below is the one of the repository.  A [null] or [undefined] answer to
    [getRotationPrompts] is [None]. *)
Record GeminiService : Type := {
  svc_getRotationPrompts :
    option string -> string -> bool -> outcome (option (list jsval));
  svc_generateRotatedImage :
    nat -> option string -> string -> jsval -> outcome string
}.

Definition geminiService (ai : GenAI) : GeminiService :=
  {| svc_getRotationPrompts := fun b m o =>
       match getRotationPrompts ai b m o with
       | Returned prompts => Returned (Some prompts)
       | Thrown e => Thrown e
       end;
     svc_generateRotatedImage := generateRotatedImage ai |}.

(** The browser, as [handleDownloadZip] uses it: [fetch(url).then(r =>
    r.blob())], numbered by call, and [zip.generateAsync]. *)
Record Browser : Type := {
  fetch_blob : nat -> string -> outcome Blob;
  generateAsync : Zip -> outcome unit
}.

(** The uploaded file: its MIME type and what [FileReader.readAsDataURL]
    ends with ([reader.result], [None] when the read fails). *)
Record File : Type := {
  file_type : string;
  read_result : option string
}.

(** [zip.file(name, data)]: a new entry goes last, an existing name keeps
    its place and gets the new content. *)
Fixpoint zip_file (zip : Zip) (name : string) (data : Blob) : Zip :=
  match zip with
  | [] => [(name, data)]
  | (n, d) :: rest =>
      if n =? name then (n, data) :: rest else (n, d) :: zip_file rest name data
  end.

(* ================================================================== *)
(** ** App.tsx *)

Definition quotaMessage : string :=
  "Quota exhausted. The free tier for the image model has been used up. Please check your Google AI Studio plan or wait a few hours before trying again.".

Definition resetState : M unit :=
  emit (SetOriginalImage None) ;;
  emit (SetGeneratedImages []) ;;
  emit (SetIsLoading false) ;;
  emit (SetStatus "") ;;
  emit (SetError "").

(** [const isFinished = !isLoading && generatedImages.length === 3] *)
Definition isFinished (s : AppState) : bool :=
  negb (isLoading s) && (List.length (generatedImages s) =? 3)%nat.

(** The [TypeError] of calling [includes] on a message that has none;
    the text is the engine's. *)
Definition includes_TypeError : thrown :=
  ErrorObj "err.message.includes is not a function".

(** The [catch] clause of [processImage].  For an [Error] the test reads
    [err.message.includes(...)], which throws when the message has no
    [includes]: then neither [setError] nor [setStatus] is reached. *)
Definition processImage_catch (err : thrown) : M unit :=
  emit ConsoleError ;;
  match err with
  | ErrorObj message =>
      if includes message "RESOURCE_EXHAUSTED" || includes message "429"
      then emit (SetError quotaMessage)
      else emit (SetError message)
  | ErrorNoText =>
      throw includes_TypeError
  | NonError _ =>
      emit (SetError "An unknown error occurred during processing.")
  end ;;
  emit (SetStatus "Failed").

Section Handlers.

Variable svc : GeminiService.
Variable browser : Browser.

Definition await_getRotationPrompts
    (base64Image : option string) (mimeType : string) (objectOnly : bool)
    : M (option (list jsval)) :=
  let r := svc_getRotationPrompts svc base64Image mimeType objectOnly in
  ([GetRotationPrompts objectOnly r], r).

Definition await_generateRotatedImage
    (i : nat) (base64Image : option string) (mimeType : string) (p : jsval)
    : M string :=
  let r := svc_generateRotatedImage svc i base64Image mimeType p in
  ([GenerateRotatedImage i p r], r).

Definition await_fetch (k : nat) (url : string) : M Blob :=
  let r := fetch_blob browser k url in ([Fetch url r], r).

Definition await_generateAsync (zip : Zip) : M Zip :=
  match generateAsync browser zip with
  | Returned _ => ([GenerateAsync (Returned tt)], Returned zip)
  | Thrown e => ([GenerateAsync (Thrown e)], Thrown e)
  end.

(** The body of [for (let i = 0; i < 3; i++)], over the indices still to
    run; [newImages] is the local array. *)
Fixpoint render_views (base64Image : option string) (mimeType : string)
    (prompts : list jsval) (indices : list nat) (newImages : list GeneratedImage)
    : M unit :=
  match indices with
  | [] => ret tt
  | i :: rest =>
      emit (SetStatus (" " ++ nat_str (i + 2) ++ "/4: Generating rotated view "
                         ++ nat_str (i + 1) ++ " of 3...")) ;;
      generatedImage <-
        await_generateRotatedImage i base64Image mimeType (nth i prompts VUndefined) ;;
      let newImages :=
        (newImages ++ [ {| src := generatedImage; prompt := nth i prompts VUndefined |} ])%list in
      emit (SetGeneratedImages newImages) ;;
      (if (i <? 2)%nat then emit (Timeout 1000) else ret tt) ;;
      render_views base64Image mimeType prompts rest newImages
  end.

(** The [try] block of [processImage]; [s] is the state of the render
    whose closure runs (it fixes [isObjectRotationOnly]). *)
Definition processImage_try (s : AppState)
    (base64Image : option string) (mimeType : string) : M unit :=
  emit (SetStatus "1/4: Analyzing camera angle...") ;;
  prompts <- await_getRotationPrompts base64Image mimeType (isObjectRotationOnly s) ;;
  match prompts with
  | None =>
      throw (ErrorObj "Could not determine rotation angles. Please try another image.")
  | Some prompts =>
      if (List.length prompts <? 3)%nat
      then throw (ErrorObj "Could not determine rotation angles. Please try another image.")
      else
        render_views base64Image mimeType prompts [0; 1; 2]%nat [] ;;
        emit (SetStatus "Processing complete!")
  end.

(** [processImage] *)
Definition processImage (s : AppState)
    (base64Image : option string) (mimeType : string) : M unit :=
  try_finally
    (try_catch (processImage_try s base64Image mimeType) processImage_catch)
    (emit (SetIsLoading false)).

(** [handleImageUpload]; [file] is [event.target.files?.[0]]. *)
Definition handleImageUpload (s : AppState) (file : option File) : M unit :=
  match file with
  | None => ret tt
  | Some file =>
      resetState ;;
      emit (SetIsLoading true) ;;
      emit (SetStatus "Reading image...") ;;
      emit (ReadAsDataURL (read_result file)) ;;
      match read_result file with
      | Some result =>
          (* reader.onloadend *)
          let base64Image := split_comma_1 result in
          emit (SetOriginalImage
                  (Some ("data:" ++ file_type file ++ ";base64," ++ interp base64Image))) ;;
          processImage s base64Image (file_type file)
      | None =>
          (* reader.onerror; onloadend then throws on the null result,
             inside its own async function, and changes nothing *)
          emit (SetError "Failed to read the image file.") ;;
          emit (SetIsLoading false) ;;
          emit (SetStatus "")
      end
  end.

(** The loop over [generatedImages] in [handleDownloadZip]; the original
    image was fetch number 0. *)
Fixpoint add_generated (images : list GeneratedImage) (i : nat) (zip : Zip) : M Zip :=
  match images with
  | [] => ret zip
  | g :: rest =>
      generatedBlob <- await_fetch (S i) (src g) ;;
      add_generated rest (S i)
        (zip_file zip ("generated_" ++ nat_str (i + 1) ++ ".png") generatedBlob)
  end.

(** [handleDownloadZip]; [s] is the state of the render whose closure
    runs. *)
Definition handleDownloadZip (s : AppState) : M unit :=
  if negb (truthy_str (originalImage s)) || (List.length (generatedImages s) <? 3)%nat
  then ret tt
  else
    emit (SetStatus "Creating ZIP file...") ;;
    try_catch
      (originalBlob <- await_fetch 0 (url_of (originalImage s)) ;;
       zip <- add_generated (generatedImages s) 0 (zip_file [] "original.png" originalBlob) ;;
       content <- await_generateAsync zip ;;
       emit (LinkClick "rotated-images.zip" content) ;;
       emit (SetStatus "Download complete!"))
      (fun err =>
         emit ConsoleError ;;
         emit (SetError "Failed to create ZIP file.") ;;
         emit (SetStatus "Failed")).

End Handlers.

(* ================================================================== *)
(** ** The controls offered, and the message of a failure *)

(** The file input and the mode checkbox are rendered while
    [!originalImage] and disabled while [isLoading]; the download and reset
    buttons are rendered while [isFinished]. *)
Definition upload_offered (s : AppState) : Prop :=
  truthy_str (originalImage s) = false /\ isLoading s = false.

(** The test of the [catch] clause of [processImage], where it comes to
    a result. *)
Definition signals_quota (e : thrown) : bool :=
  match e with
  | ErrorObj message => includes message "RESOURCE_EXHAUSTED" || includes message "429"
  | ErrorNoText | NonError _ => false
  end.

(** The message [processImage] sets for a thrown value, if it gets to set
    one. *)
Definition userMessage (e : thrown) : option string :=
  match e with
  | ErrorObj message => Some (if signals_quota e then quotaMessage else message)
  | ErrorNoText => None
  | NonError _ => Some "An unknown error occurred during processing."
  end.

(** The text a thrown value carries, if it carries one. *)
Definition error_text (e : thrown) : option string :=
  match e with
  | ErrorObj message => Some message
  | NonError (VString text) => Some text
  | _ => None
  end.

(** A text that names resource exhaustion or the rate-limit status. *)
Definition carries_quota_text (text : string) : bool :=
  includes text "RESOURCE_EXHAUSTED" || includes text "429".

(** What follows a [try] block that throws [e]: the [catch] clause, which
    itself throws when it cannot read the message, and the [finally]
    clause either way. *)
Definition after_throw (e : thrown) : list event :=
  match userMessage e with
  | Some message => [ConsoleError; SetError message; SetStatus "Failed"; SetIsLoading false]
  | None => [ConsoleError; SetIsLoading false]
  end.

(** The render calls of a trace, and those that resolved. *)
Definition is_render (e : event) : bool :=
  match e with
  | GenerateRotatedImage _ _ _ => true
  | _ => false
  end.

Definition render_succeeded (e : event) : bool :=
  match e with
  | GenerateRotatedImage _ _ (Returned _) => true
  | _ => false
  end.

Definition render_calls (t : list event) : nat := List.length (filter is_render t).

(** The archive a trace offers for download, if any. *)
Fixpoint archive_of (t : list event) : option Zip :=
  match t with
  | [] => None
  | LinkClick _ content :: _ => Some content
  | _ :: rest => archive_of rest
  end.

(** Events at which a handler is suspended. *)
Definition is_await (e : event) : bool :=
  match e with
  | ReadAsDataURL _ | GetRotationPrompts _ _ | GenerateRotatedImage _ _ _
  | Timeout _ | Fetch _ _ | GenerateAsync _ => true
  | _ => false
  end.

(** The observable points of a trace started in [s] with [n] render calls
    already resolved: the state at each suspension and at the end, each
    with the number of render calls that have resolved by then. *)
Fixpoint observe (s : AppState) (n : nat) (t : list event) : list (AppState * nat) :=
  match t with
  | [] => [(s, n)]
  | e :: rest =>
      ((if is_await e then [(s, n)] else []) ++
       observe (apply_event s e) (if render_succeeded e then S n else n) rest)%list
  end.

(** [l1] is an initial segment of [l2]. *)
Definition extends {A} (l1 l2 : list A) : Prop := exists tl, l2 = (l1 ++ tl)%list.

(** Every element of the list extends the one before it. *)
Fixpoint grows {A} (ls : list (list A)) : Prop :=
  match ls with
  | l1 :: ((l2 :: _) as rest) => extends l1 l2 /\ grows rest
  | _ => True
  end.

(* ================================================================== *)
(** ** Observing traces *)

(** All the states a trace goes through, the first included. *)
Fixpoint states (s : AppState) (t : list event) : list AppState :=
  s :: match t with
       | [] => []
       | e :: rest => states (apply_event s e) rest
       end.

(** The render calls of a trace, in order: the index each was issued for
    and whether it resolved. *)
Fixpoint render_log (t : list event) : list (nat * bool) :=
  match t with
  | [] => []
  | GenerateRotatedImage i _ (Returned _) :: rest => (i, true) :: render_log rest
  | GenerateRotatedImage i _ (Thrown _) :: rest => (i, false) :: render_log rest
  | _ :: rest => render_log rest
  end.

(** The calls of a log are numbered [next], [next + 1], ... and a call is
    followed by another one only if it resolved. *)
Fixpoint in_sequence (next : nat) (log : list (nat * bool)) : Prop :=
  match log with
  | [] => True
  | (i, ok) :: rest =>
      i = next /\ (rest <> [] -> ok = true) /\ in_sequence (S next) rest
  end.

(** The pauses of a trace: for every render call but the first, the total
    of the [Timeout]s since the previous render call.  [acc] is that total
    so far, [None] before the first render call. *)
Fixpoint pauses (acc : option Z) (t : list event) : list Z :=
  match t with
  | [] => []
  | GenerateRotatedImage _ _ _ :: rest =>
      (match acc with Some a => [a] | None => [] end ++ pauses (Some 0%Z) rest)%list
  | Timeout ms :: rest => pauses (option_map (Z.add ms) acc) rest
  | _ :: rest => pauses acc rest
  end.

(** The total of the [Timeout]s after the last render call. *)
Fixpoint trailing_pause (acc : Z) (t : list event) : Z :=
  match t with
  | [] => acc
  | GenerateRotatedImage _ _ _ :: rest => trailing_pause 0 rest
  | Timeout ms :: rest => trailing_pause (acc + ms) rest
  | _ :: rest => trailing_pause acc rest
  end.

(** The times at which the render calls of a trace are issued, when the
    [k]-th event of the trace takes [dur k] and the trace starts at [now]. *)
Fixpoint render_times (dur : nat -> Z) (k : nat) (now : Z) (t : list event) : list Z :=
  match t with
  | [] => []
  | e :: rest =>
      ((if is_render e then [now] else []) ++
       render_times dur (S k) (now + dur k) rest)%list
  end.

(** Successive times are at least [d] apart, the first one from [last]. *)
Fixpoint spaced_after (last : option Z) (d : Z) (times : list Z) : Prop :=
  match times with
  | [] => True
  | x :: rest =>
      match last with
      | Some l => (l + d <= x)%Z
      | None => True
      end /\ spaced_after (Some x) d rest
  end.

(** A timer does not fire early: an event [Timeout ms] takes at least
    [ms].  The trace [t] starts at event number [k]. *)
Definition timers_respected (dur : nat -> Z) (k : nat) (t : list event) : Prop :=
  forall j ms, nth_error t j = Some (Timeout ms) -> (ms <= dur (k + j)%nat)%Z.

(** Events that leave the images and the loading flag alone. *)
Definition keeps_images (e : event) : Prop :=
  match e with
  | SetOriginalImage _ | SetGeneratedImages _ | SetIsLoading _ => False
  | _ => True
  end.

(** Events that leave the error alone. *)
Definition sets_no_error (e : event) : Prop :=
  match e with
  | SetError _ => False
  | _ => True
  end.

(* ================================================================== *)
(** ** Concrete runs used as examples *)

Module Demo.

Definition image_part : Part :=
  {| inlineData := Some {| inline_mimeType := Some "image/png"; inline_data := Some "QUFB" |} |}.

(** A service that answers with three prompts and renders every view. *)
Definition ai : GenAI :=
  {| promptsResponse := fun _ _ _ =>
       Returned (Some (VObject
         [("prompts", VArray [VString "low-angle hero"; VString "bird's-eye";
                              VString "dutch tilt"])]));
     imageResponse := fun _ _ _ _ => Returned (Some [ {| inlineData := None |}; image_part ]) |}.



(** An implementation of the service module that hands two prompts to
    the caller. *)
Definition svc_two_prompts : GeminiService :=
  {| svc_getRotationPrompts := fun _ _ _ =>
       Returned (Some [VString "low-angle hero"; VString "bird's-eye"]);
     svc_generateRotatedImage := fun _ _ _ _ => Returned "data:image/png;base64,QUFB" |}.

(** A service whose [k]-th render call rejects with [e]. *)
Definition svc_failing_at (k : nat) (e : thrown) : GeminiService :=
  {| svc_getRotationPrompts := svc_getRotationPrompts (geminiService ai);
     svc_generateRotatedImage := fun i b m p =>
       if (i =? k)%nat then Thrown e else svc_generateRotatedImage (geminiService ai) i b m p |}.

Definition file : File :=
  {| file_type := "image/png"; read_result := Some "data:image/png;base64,QUJD" |}.

Definition working_browser : Browser :=
  {| fetch_blob := fun _ url => Returned (BlobOf url);
     generateAsync := fun _ => Returned tt |}.

Definition failing_browser : Browser :=
  {| fetch_blob := fun _ _ => Thrown (ErrorObj "Failed to fetch");
     generateAsync := fun _ => Returned tt |}.

(** The state after a complete run. *)
Definition finished : AppState :=
  exec (handleImageUpload (geminiService ai) initialState (Some file)) initialState.

(** ... after an archive export that failed, *)
Definition export_failed : AppState :=
  exec (handleDownloadZip failing_browser finished) finished.

(** ... and after a second export, which worked. *)
Definition export_retried : AppState :=
  exec (handleDownloadZip working_browser export_failed) export_failed.

End Demo.

(* ================================================================== *)
(** ** What [App] renders *)

(** The first grid cell: the upload label with its file input, or the
    original image. *)
Inductive FirstCell : Type :=
| UploadLabel (disabled : bool)
| OriginalImg (image_src : string).

(** One of the three result cells: the [prompt] prop handed to [GridCell],
    whether the spinner is rendered, and the image if there is one. *)
Record CellView : Type := {
  cell_prompt : jsval;
  cell_spinner : bool;
  cell_image : option string
}.

Inductive Banner : Type :=
| ErrorText (text : string)
| StatusText (text : string).

(** The parts of the page that depend on the state: the mode checkbox with
    [checked] and [disabled], the download and reset buttons with their
    common [disabled], and the message under the controls. *)
Record View : Type := {
  first_cell : FirstCell;
  cells : list CellView;
  mode_checkbox : option (bool * bool);
  buttons : option bool;
  banner : option Banner
}.

Definition defined {A} (o : option A) : bool :=
  match o with
  | Some _ => true
  | None => false
  end.

(** The body of [[...Array(3)].map((_, i) => ...)]. *)
Definition render_cell (s : AppState) (i : nat) : CellView :=
  let g := nth_error (generatedImages s) i in
  {| cell_prompt := match g with
                    | Some g => prompt g
                    | None => VUndefined
                    end;
     cell_spinner := isLoading s && negb (defined g);
     cell_image := option_map src g |}.

(** The [return] of [App]. *)
Definition render (s : AppState) : View :=
  {| first_cell :=
       if negb (truthy_str (originalImage s))
       then UploadLabel (isLoading s)
       else OriginalImg (url_of (originalImage s));
     cells := map (render_cell s) [0; 1; 2]%nat;
     mode_checkbox :=
       if negb (truthy_str (originalImage s))
       then Some (isObjectRotationOnly s, isLoading s)
       else None;
     buttons := if isFinished s then Some (isLoading s) else None;
     banner :=
       if isLoading s || negb (status s =? "") || negb (error s =? "")
       then Some (if negb (error s =? "") then ErrorText (error s)
                  else StatusText (status s))
       else None |}.

(** The controls of a view that react to the user. *)
Definition can_upload (v : View) : bool :=
  match first_cell v with
  | UploadLabel disabled => negb disabled
  | OriginalImg _ => false
  end.


Definition can_download_or_reset (v : View) : bool :=
  match buttons v with
  | Some disabled => negb disabled
  | None => false
  end.


(** The entries [handleDownloadZip] adds for the generated images when
    the fetch numbered [k] of [url] yields [blob_of k url]; [i] images have
    been added before. *)
Fixpoint generated_entries (blob_of : nat -> string -> Blob)
    (images : list GeneratedImage) (i : nat) : Zip :=
  match images with
  | [] => []
  | g :: rest =>
      ("generated_" ++ nat_str (i + 1) ++ ".png", blob_of (S i) (src g))
        :: generated_entries blob_of rest (S i)
  end.

(* ================================================================== *)
(** ** components/GridCell.tsx *)

(** The elements of a [GridCell] that carry an [onClick]: the info button,
    the overlay that covers the cell, the panel inside the overlay, and the
    close button inside the panel. *)
Inductive Element : Type :=
| InfoButton
| Overlay
| Panel
| CloseButton.

(** [prompt && (button ... {isPromptVisible && (overlay ...)})] *)
Definition rendered (prompt : jsval) (isPromptVisible : bool) (el : Element) : bool :=
  match el with
  | InfoButton => truthy prompt
  | Overlay | Panel | CloseButton => truthy prompt && isPromptVisible
  end.

(** The elements with an [onClick] above an element, innermost first. *)
Definition ancestors (el : Element) : list Element :=
  match el with
  | CloseButton => [Panel; Overlay]
  | Panel => [Overlay]
  | InfoButton | Overlay => []
  end.

(** A click bubbling up a path of elements: the info button sets
    [isPromptVisible], the overlay and the close button clear it, the panel
    stops the propagation. *)
Fixpoint bubble (path : list Element) (isPromptVisible : bool) : bool :=
  match path with
  | [] => isPromptVisible
  | InfoButton :: up => bubble up true
  | Overlay :: up => bubble up false
  | CloseButton :: up => bubble up false
  | Panel :: _ => isPromptVisible
  end.

(** A click on an element, which only exists if it is rendered. *)
Definition click (prompt : jsval) (isPromptVisible : bool) (el : Element) : bool :=
  if rendered prompt isPromptVisible el
  then bubble (el :: ancestors el) isPromptVisible
  else isPromptVisible.

(* ================================================================== *)
(** ** More ways to look at traces and states *)

(** A part without inline data. *)
Definition no_inline (p : Part) : Prop := inlineData p = None.

(** The calls that go to the service. *)
Definition is_service_call (e : event) : bool :=
  match e with
  | GetRotationPrompts _ _ | GenerateRotatedImage _ _ _ => true
  | _ => false
  end.

(** The events an export can perform. *)
Definition export_event (e : event) : Prop :=
  match e with
  | SetStatus _ | SetError _ | Fetch _ _ | GenerateAsync _ | LinkClick _ _ | ConsoleError => True
  | _ => False
  end.

(** Events that offer no archive. *)
Definition no_link (e : event) : Prop :=
  match e with
  | LinkClick _ _ => False
  | _ => True
  end.

(** The [try] block of [handleDownloadZip], as it stands in the handler. *)
Definition export_try (browser : Browser) (s : AppState) : M unit :=
  originalBlob <- await_fetch browser 0 (url_of (originalImage s)) ;;
  zip <- add_generated browser (generatedImages s) 0
           (zip_file [] "original.png" originalBlob) ;;
  content <- await_generateAsync browser zip ;;
  emit (LinkClick "rotated-images.zip" content) ;;
  emit (SetStatus "Download complete!").

(** The statuses a handler leaves behind. *)
Definition resting_status (m : string) : Prop :=
  m = "" \/ m = "Failed" \/ m = "Processing complete!" \/ m = "Download complete!".

(** An original image, when there is one, is a data URL. *)
Definition data_url (o : option string) : Prop :=
  match o with
  | Some url => prefix "data:" url = true
  | None => True
  end.

(* ================================================================== *)
(** ** The page with its handlers in flight *)

(** What a handler does at once: its events up to and including the next
    awaited call; and what it has left for when that call is over, if it
    reached a call. *)
Fixpoint next_segment (t : list event) : list event * option (list event) :=
  match t with
  | [] => ([], None)
  | e :: rest =>
      if is_await e then ([e], Some rest)
      else let (seg, k) := next_segment rest in (e :: seg, k)
  end.

(** The page: the state, and the handlers that wait for a call, each with
    the events it still has to perform. *)
Definition Page : Type := (AppState * list (list event))%type.

(** A handler with the events [t] ahead runs until its next awaited
    call. *)
Definition proceed (t : list event) (p : Page) : Page :=
  let (seg, k) := next_segment t in
  (run_events (fst p) seg,
   match k with
   | Some rest => rest :: snd p
   | None => snd p
   end).

(** What the page can get to.  A control starts its handler when it is
    offered in the state rendered; the handler closes over that state.  A
    handler that waits goes on whenever its call is over, in any order with
    the other handlers that wait and with the controls: the download and
    reset buttons stay enabled while an export waits, since
    [handleDownloadZip] does not set [isLoading]. *)
Inductive reachable : Page -> Prop :=
| reach_init : reachable (initialState, [])
| reach_upload svc s waiting file :
    reachable (s, waiting) -> upload_offered s ->
    reachable (proceed (trace (handleImageUpload svc s file)) (s, waiting))
| reach_mode s waiting b :
    reachable (s, waiting) -> upload_offered s ->
    reachable (apply_event s (SetIsObjectRotationOnly b), waiting)
| reach_reset s waiting :
    reachable (s, waiting) -> isFinished s = true ->
    reachable (exec resetState s, waiting)
| reach_download browser s waiting :
    reachable (s, waiting) -> isFinished s = true ->
    reachable (proceed (trace (handleDownloadZip browser s)) (s, waiting))
| reach_resume s before t after :
    reachable (s, (before ++ t :: after)%list) ->
    reachable (proceed t (s, (before ++ after)%list)).

(** The steady states: those the page rests in, no handler waiting. *)
Definition steady (s : AppState) : Prop := reachable (s, []).

(** The fields an export leaves alone. *)
Definition same_frame (a b : AppState) : Prop :=
  originalImage a = originalImage b /\
  generatedImages a = generatedImages b /\
  isLoading a = isLoading b.

(** What a run leaves behind in these fields: at most three generated
    images, none without an original image, and an original image that is
    a data URL. *)
Definition Shape (s : AppState) : Prop :=
  (List.length (generatedImages s) <= 3)%nat /\
  (generatedImages s <> [] -> truthy_str (originalImage s) = true) /\
  data_url (originalImage s).

(** The events [r] a run has ahead keep the page loading at every awaited
    call and leave it, at their end, not loading and in shape. *)
Fixpoint run_ok (s : AppState) (r : list event) : Prop :=
  match r with
  | [] => isLoading s = false /\ Shape s
  | e :: rest =>
      (if is_await e then isLoading s = true else True) /\
      run_ok (apply_event s e) rest
  end.

(** The handlers that wait are exports, but for one run while the page
    is loading. *)
Definition frame_ok (p : Page) : Prop :=
  (isLoading (fst p) = false /\ Shape (fst p) /\ Forall (Forall keeps_images) (snd p)) \/
  (isLoading (fst p) = true /\
   exists before r after,
     snd p = (before ++ r :: after)%list /\
     Forall (Forall keeps_images) (before ++ after)%list /\
     run_ok (fst p) r).

(** The last status a list of events sets, if it sets one. *)
Fixpoint last_status (t : list event) : option string :=
  match t with
  | [] => None
  | e :: rest =>
      match last_status rest with
      | Some m => Some m
      | None => match e with
                | SetStatus m => Some m
                | _ => None
                end
      end
  end.

(** The statuses a run sets while it works. *)
Definition stage_label (m : string) : Prop :=
  m = "1/4: Analyzing camera angle..." \/
  exists i, (i < 3)%nat /\
    m = " " ++ nat_str (i + 2) ++ "/4: Generating rotated view " ++ nat_str (i + 1) ++ " of 3...".

(** The [n]-th of the handlers that wait, with those before and after
    it. *)
Fixpoint pick {A} (n : nat) (l : list A) : option (list A * A * list A) :=
  match l, n with
  | [], _ => None
  | x :: rest, O => Some ([], x, rest)
  | x :: rest, S n' =>
      match pick n' rest with
      | Some (before, t, after) => Some (x :: before, t, after)
      | None => None
      end
  end.

(** The [n]-th of the handlers that wait goes on. *)
Definition resume (n : nat) (p : Page) : Page :=
  match pick n (snd p) with
  | Some (before, t, after) => proceed t (fst p, (before ++ after)%list)
  | None => p
  end.

(** The handler that started last goes on, [n] times. *)
Fixpoint resume_first (n : nat) (p : Page) : Page :=
  match n with
  | O => p
  | S n' => resume_first n' (resume 0 p)
  end.

(** An export that overlaps with the next run: after a complete run the
    user clicks Download, and, while the export waits for its first fetch,
    Reset, and uploads the image again; the fetch of the export then fails
    while the new run waits for the reader; the run goes on to its end. *)
Module Overlap.

Definition exporting : Page :=
  proceed (trace (handleDownloadZip Demo.failing_browser Demo.finished)) (Demo.finished, []).

Definition cleared : Page := (exec resetState (fst exporting), snd exporting).

Definition reading : Page :=
  proceed (trace (handleImageUpload (geminiService Demo.ai) (fst cleared) (Some Demo.file)))
    cleared.

Definition export_failed : Page := resume 1 reading.

Definition at_rest : Page := resume_first 7 export_failed.

End Overlap.

(** The statuses the page can rest with: those a handler sets last, and
    the label of a stage, left behind when the [catch] clause of the run
    threw. *)
Definition rest_status (m : string) : Prop := resting_status m \/ stage_label m.

Definition ends_ok (t : list event) : Prop :=
  match last_status t with
  | Some m => rest_status m
  | None => True
  end.

Definition has_status (t : list event) : Prop := last_status t <> None.

(** Every handler that waits ends on a status to rest with, and the
    status shown is one, unless a handler that waits has yet to set one. *)
Definition status_ok (p : Page) : Prop :=
  Forall ends_ok (snd p) /\
  (rest_status (status (fst p)) \/ Exists has_status (snd p)).

(* ================================================================== *)
(** ** Basic facts *)

Lemma run_events_app s t1 t2 :
  run_events s (t1 ++ t2) = run_events (run_events s t1) t2.
Proof. unfold run_events. apply fold_left_app. Qed.

Lemma processImage_catch_trace e :
  processImage_catch e =
  match userMessage e with
  | Some message => ([ConsoleError; SetError message; SetStatus "Failed"], Returned tt)
  | None => ([ConsoleError], Thrown includes_TypeError)
  end.
Proof.
  destruct e as [message | | v]; unfold processImage_catch, userMessage, signals_quota.
  - destruct (includes message "RESOURCE_EXHAUSTED" || includes message "429"); reflexivity.
  - reflexivity.
  - reflexivity.
Qed.

Arguments processImage_catch : simpl never.
Arguments String.append : simpl never.

(** Case analysis over what the service answers during a run. *)
Ltac run_service svc :=
  repeat match goal with
  | |- context [svc_getRotationPrompts svc ?b ?m ?o] =>
      let E := fresh "Ederive" in
      destruct (svc_getRotationPrompts svc b m o) as [[[|? [|? [|? ?]]]|]|?] eqn:E; cbn
  | |- context [svc_generateRotatedImage svc ?i ?b ?m ?p] =>
      let E := fresh "Erender" in
      destruct (svc_generateRotatedImage svc i b m p) eqn:E; cbn
  | |- context [processImage_catch ?e] => rewrite (processImage_catch_trace e); cbn
  | |- context [userMessage ?e] =>
      is_var e;
      let E := fresh "Emessage" in
      destruct (userMessage e) eqn:E; cbn
  end.

Ltac unfold_run :=
  unfold processImage, processImage_try, try_finally, try_catch,
    await_getRotationPrompts.

(** *** Handlers that run to their end *)

Lemma next_segment_app t :
  t = (fst (next_segment t) ++ match snd (next_segment t) with
                               | Some rest => rest
                               | None => []
                               end)%list.
Proof.
  induction t as [| e rest IH]; [reflexivity |].
  cbn [next_segment]. destruct (is_await e); [reflexivity |].
  destruct (next_segment rest) as [seg k]. cbn [fst snd app] in *. now rewrite <- IH.
Qed.

Lemma next_segment_shorter t :
  match snd (next_segment t) with
  | Some rest => (List.length rest < List.length t)%nat
  | None => True
  end.
Proof.
  induction t as [| e rest IH]; [exact I |].
  cbn [next_segment]. destruct (is_await e); [cbn; lia |].
  destruct (next_segment rest) as [seg [k |]]; cbn [fst snd List.length] in *; [lia | exact I].
Qed.

(** A handler that was started can go on, call after call, to its end. *)
Lemma reachable_run_on n :
  forall t s waiting,
    (List.length t <= n)%nat ->
    reachable (proceed t (s, waiting)) ->
    reachable (run_events s t, waiting).
Proof.
  induction n as [| n IH]; intros t s waiting Hlen.
  - destruct t; [| cbn in Hlen; lia]. intros H. exact H.
  - unfold proceed. pose proof (next_segment_app t) as Ht.
    pose proof (next_segment_shorter t) as Hshort.
    destruct (next_segment t) as [seg [rest |]]; cbn [fst snd] in *.
    + intros H. rewrite Ht, run_events_app.
      apply (IH rest (run_events s seg) waiting); [lia |].
      exact (reach_resume (run_events s seg) [] rest waiting H).
    + intros H. rewrite app_nil_r in Ht. now rewrite Ht.
Qed.

(** The page starts at rest, and a handler that runs on its own from a
    steady state, to its end, leaves a steady state. *)
Lemma steady_init : steady initialState.
Proof. exact reach_init. Qed.

Lemma steady_upload svc s file :
  steady s -> upload_offered s -> steady (exec (handleImageUpload svc s file) s).
Proof.
  intros Hs Hoff. unfold steady, exec in *.
  apply (reachable_run_on _ _ _ _ (le_n _)).
  exact (reach_upload svc s [] file Hs Hoff).
Qed.

Lemma steady_mode s b :
  steady s -> upload_offered s -> steady (apply_event s (SetIsObjectRotationOnly b)).
Proof. intros Hs Hoff. exact (reach_mode s [] b Hs Hoff). Qed.

Lemma steady_reset s :
  steady s -> isFinished s = true -> steady (exec resetState s).
Proof. intros Hs Hfin. exact (reach_reset s [] Hs Hfin). Qed.

Lemma steady_download browser s :
  steady s -> isFinished s = true -> steady (exec (handleDownloadZip browser s) s).
Proof.
  intros Hs Hfin. unfold steady, exec in *.
  apply (reachable_run_on _ _ _ _ (le_n _)).
  exact (reach_download browser s [] Hs Hfin).
Qed.

Lemma steady_finished : steady Demo.finished.
Proof.
  apply steady_upload; [apply steady_init | split; reflexivity].
Qed.

Lemma steady_export_failed : steady Demo.export_failed.
Proof.
  apply steady_download; [apply steady_finished | reflexivity].
Qed.

Lemma steady_export_retried : steady Demo.export_retried.
Proof.
  apply steady_download; [apply steady_export_failed | reflexivity].
Qed.

(* ================================================================== *)
(** ** Strings: prefixes, substrings, commas *)

Lemma append_cons a s t : String a s ++ t = String a (s ++ t).
Proof. reflexivity. Qed.

Lemma append_nil_l t : "" ++ t = t.
Proof. reflexivity. Qed.

Lemma string_append_assoc s t u : (s ++ t) ++ u = s ++ t ++ u.
Proof.
  induction s as [| a s IH]; [reflexivity |].
  now rewrite !append_cons, IH.
Qed.

Lemma prefix_nil s : prefix "" s = true.
Proof. now destruct s. Qed.

Lemma prefix_cons a s b t :
  prefix (String a s) (String b t) = Ascii.eqb a b && prefix s t.
Proof.
  cbn. destruct (ascii_dec a b) as [-> | Hne].
  - now rewrite Ascii.eqb_refl.
  - apply Ascii.eqb_neq in Hne. now rewrite Hne.
Qed.

Lemma prefix_app s t : prefix s (s ++ t) = true.
Proof.
  induction s as [| a s IH].
  - apply prefix_nil.
  - rewrite append_cons, prefix_cons, Ascii.eqb_refl. exact IH.
Qed.

Lemma prefix_iff p s : prefix p s = true <-> exists post, s = p ++ post.
Proof.
  revert s. induction p as [| a p IH]; intros s.
  - rewrite prefix_nil. split; [intros _; now exists s | reflexivity].
  - destruct s as [| b s].
    + cbn. split; [discriminate | intros [post H]; discriminate].
    + rewrite prefix_cons, andb_true_iff, Ascii.eqb_eq, IH. split.
      * intros [-> [post ->]]. now exists post.
      * intros [post H]. rewrite append_cons in H. injection H as -> ->. eauto.
Qed.

Lemma includes_unfold s sub :
  includes s sub =
  prefix sub s || match s with
                  | EmptyString => false
                  | String _ s' => includes s' sub
                  end.
Proof.
  destruct s as [| a s]; cbn [includes].
  - now destruct (prefix sub "").
  - now destruct (prefix sub (String a s)).
Qed.

(** [includes] finds exactly the substrings. *)
Lemma includes_iff s sub :
  includes s sub = true <-> exists pre post, s = pre ++ sub ++ post.
Proof.
  induction s as [| a s IH]; rewrite includes_unfold, orb_true_iff, prefix_iff.
  - split.
    + intros [[post H] | H]; [| discriminate]. now exists "", post.
    + intros (pre & post & H). left. destruct pre; [| discriminate]. now exists post.
  - rewrite IH. split.
    + intros [[post H] | (pre & post & H)].
      * now exists "", post.
      * exists (String a pre), post. now rewrite H.
    + intros (pre & post & H). destruct pre as [| b pre].
      * left. now exists post.
      * right. rewrite append_cons in H. injection H as _ ->. now exists pre, post.
Qed.

Lemma includes_comma_cons a s :
  includes (String a s) "," = Ascii.eqb a "," || includes s ",".
Proof.
  rewrite includes_unfold, prefix_cons, prefix_nil, andb_true_r.
  now rewrite Ascii.eqb_sym.
Qed.

Lemma no_comma_app s t :
  includes (s ++ t) "," = false <-> includes s "," = false /\ includes t "," = false.
Proof.
  induction s as [| a s IH].
  - rewrite append_nil_l. split; [intros H; split; [reflexivity | exact H] | now intros [_ H]].
  - rewrite append_cons, !includes_comma_cons, !orb_false_iff, IH. tauto.
Qed.

Lemma upto_comma_no_comma s : includes s "," = false -> upto_comma s = s.
Proof.
  induction s as [| a s IH]; [reflexivity |].
  rewrite includes_comma_cons, orb_false_iff. intros [Ha Hs].
  cbn [upto_comma]. rewrite Ha. now rewrite IH.
Qed.

Lemma split_comma_1_none s : includes s "," = false -> split_comma_1 s = None.
Proof.
  induction s as [| a s IH]; [reflexivity |].
  rewrite includes_comma_cons, orb_false_iff. intros [Ha Hs].
  cbn [split_comma_1]. rewrite Ha. auto.
Qed.

Lemma split_comma_1_app s t :
  includes s "," = false -> split_comma_1 (s ++ "," ++ t) = Some (upto_comma t).
Proof.
  induction s as [| a s IH].
  - intros _. reflexivity.
  - rewrite includes_comma_cons, orb_false_iff. intros [Ha Hs].
    rewrite append_cons. cbn [split_comma_1]. rewrite Ha. auto.
Qed.

Lemma split_comma_1_data_url type payload :
  includes type "," = false ->
  includes payload "," = false ->
  split_comma_1 ("data:" ++ type ++ ";base64," ++ payload) = Some payload.
Proof.
  intros Ht Hp.
  replace ("data:" ++ type ++ ";base64," ++ payload)
    with (("data:" ++ type ++ ";base64") ++ "," ++ payload).
  - rewrite split_comma_1_app, (upto_comma_no_comma _ Hp); [reflexivity |].
    apply no_comma_app. split; [reflexivity |].
    apply no_comma_app. split; [exact Ht | reflexivity].
  - rewrite !string_append_assoc. reflexivity.
Qed.

(* ================================================================== *)
(** ** Finished runs *)

Lemma isFinished_spec s :
  isFinished s = true <-> isLoading s = false /\ List.length (generatedImages s) = 3%nat.
Proof.
  unfold isFinished. rewrite andb_true_iff, negb_true_iff, Nat.eqb_eq. reflexivity.
Qed.




(* ================================================================== *)
(** ** Reset *)

(** C9: from any state, [resetState] leaves the five workflow fields as
    they are in the initial state: no original image, no generated image,
    not loading, empty status, no error.  (The rotation-mode flag is not a
    workflow field and keeps its value.) *)
Theorem resetState_initial (s : AppState) :
  let s' := exec resetState s in
  originalImage s' = originalImage initialState /\
  generatedImages s' = generatedImages initialState /\
  isLoading s' = isLoading initialState /\
  status s' = status initialState /\
  error s' = error initialState /\
  s' = apply_event initialState (SetIsObjectRotationOnly (isObjectRotationOnly s)).
Proof.
  cbn. repeat split; reflexivity.
Qed.

(* ================================================================== *)
(** ** Archive export *)

(** C10: called without an original image, or with fewer than three
    generated images, [handleDownloadZip] returns at once: it performs no
    event at all, so it offers no archive, sets no error and leaves the
    state as it was. *)
Theorem handleDownloadZip_guard (browser : Browser) (s : AppState) :
  truthy_str (originalImage s) = false \/ (List.length (generatedImages s) < 3)%nat ->
  handleDownloadZip browser s = ([], Returned tt) /\
  archive_of (trace (handleDownloadZip browser s)) = None /\
  exec (handleDownloadZip browser s) s = s.
Proof.
  intros Hguard.
  assert (Hret : handleDownloadZip browser s = ([], Returned tt)).
  { unfold handleDownloadZip.
    destruct Hguard as [Hnull | Hshort].
    - rewrite Hnull. reflexivity.
    - apply Nat.ltb_lt in Hshort. rewrite Hshort, orb_true_r. reflexivity. }
  unfold exec. rewrite Hret. repeat split; reflexivity.
Qed.

Lemma handleDownloadZip_guard_witness :
  (truthy_str (originalImage initialState) = false \/
   (List.length (generatedImages initialState) < 3)%nat) /\
  handleDownloadZip Demo.working_browser initialState = ([], Returned tt) /\
  archive_of (trace (handleDownloadZip Demo.working_browser initialState)) = None /\
  exec (handleDownloadZip Demo.working_browser initialState) initialState = initialState.
Proof.
  split.
  - left. reflexivity.
  - apply (handleDownloadZip_guard Demo.working_browser initialState). left. reflexivity.
Defined.

(* ================================================================== *)
(** ** Prompt validation *)

Lemma getRotationPrompts_returned ai b m o prompts :
  getRotationPrompts ai b m o = Returned prompts ->
  List.length prompts = 3%nat /\
  exists result,
    promptsResponse ai b m o = Returned (Some result) /\
    truthy result = true /\
    get_prop result "prompts" = VArray prompts.
Proof.
  unfold getRotationPrompts.
  destruct (promptsResponse ai b m o) as [[result |] | e]; try discriminate.
  destruct (truthy result) eqn:Ht; try discriminate.
  destruct (get_prop result "prompts") as [ | | | | | items | ] eqn:Hp; try discriminate.
  cbn [array_items].
  destruct (List.length items =? 3)%nat eqn:Hlen; try discriminate.
  intros [= <-]. split.
  - now apply Nat.eqb_eq.
  - exists result. auto.
Qed.







(* ================================================================== *)
(** ** Failures during a run *)

Lemma signals_quota_iff message :
  signals_quota (ErrorObj message) = true <->
  exists pre post,
    message = pre ++ "RESOURCE_EXHAUSTED" ++ post \/ message = pre ++ "429" ++ post.
Proof.
  cbn [signals_quota]. rewrite orb_true_iff, !includes_iff. split.
  - intros [(pre & post & H) | (pre & post & H)]; exists pre, post; auto.
  - intros (pre & post & [H | H]); [left | right]; eauto.
Qed.

Lemma processImage_failure_trace svc s b m e :
  result (processImage_try svc s b m) = Thrown e ->
  trace (processImage svc s b m) = (trace (processImage_try svc s b m) ++ after_throw e)%list.
Proof.
  unfold processImage, try_finally, try_catch, result, trace, after_throw.
  destruct (processImage_try svc s b m) as [t r]. cbn [snd fst].
  intros ->. rewrite processImage_catch_trace.
  destruct (userMessage e); cbn; now rewrite <- app_assoc.
Qed.

Lemma processImage_failure_result svc s b m e :
  result (processImage_try svc s b m) = Thrown e ->
  result (processImage svc s b m) =
  match userMessage e with
  | Some _ => Returned tt
  | None => Thrown includes_TypeError
  end.
Proof.
  unfold processImage, try_finally, try_catch, result, trace.
  destruct (processImage_try svc s b m) as [t r]. cbn [snd fst].
  intros ->. rewrite processImage_catch_trace.
  destruct (userMessage e); reflexivity.
Qed.

(** C6, as the specification states it, fails.  Read in the way most
    favourable to the code, a failure signals resource exhaustion or a
    rate-limit status when its text carries [RESOURCE_EXHAUSTED] or [429];
    the claim then asks for the quota message when the text carries one of
    them and for the text itself otherwise.  A rejection with the string
    "429 Too Many Requests" (a value that is no [Error]) carries the
    rate-limit status, and the page shows the fixed unknown-error text. *)
Lemma failure_message_counterexample :
  ~ (forall svc s0 s b m e text,
       result (processImage_try svc s b m) = Thrown e ->
       error_text e = Some text ->
       let s' := exec (processImage svc s b m) s0 in
       (carries_quota_text text = true -> error s' = quotaMessage) /\
       (carries_quota_text text = false -> error s' = text)).
Proof.
  intros H.
  destruct (H (Demo.svc_failing_at 1 (NonError (VString "429 Too Many Requests")))
              initialState initialState (Some "QUJD") "image/png"
              (NonError (VString "429 Too Many Requests")) "429 Too Many Requests"
              eq_refl eq_refl) as [Hquota _].
  specialize (Hquota eq_refl). discriminate Hquota.
Qed.

(** C6 (amended): whatever stage of a run throws, the failure ends with
    loading cleared.  When the thrown value is an [Error] with a text
    message, the status becomes "Failed" and the error shown is the quota
    message if the message contains [RESOURCE_EXHAUSTED] or [429] anywhere
    (also inside a longer word or number), and the message of the error
    itself if it contains neither.  When the thrown value is not an [Error],
    the status becomes "Failed" and the error shown is the fixed text "An
    unknown error occurred during processing.", whatever the value carries.
    (An [Error] whose message is no text makes the [catch] clause itself
    throw: the run rejects and no message is chosen.) *)
Theorem failure_message svc (s0 s : AppState) b m e :
  result (processImage_try svc s b m) = Thrown e ->
  let s' := exec (processImage svc s b m) s0 in
  isLoading s' = false /\
  match e with
  | ErrorObj message =>
      status s' = "Failed" /\
      ((exists pre post,
          message = pre ++ "RESOURCE_EXHAUSTED" ++ post \/ message = pre ++ "429" ++ post) ->
       error s' = quotaMessage) /\
      (~ (exists pre post,
            message = pre ++ "RESOURCE_EXHAUSTED" ++ post \/ message = pre ++ "429" ++ post) ->
       error s' = message)
  | ErrorNoText =>
      result (processImage svc s b m) = Thrown includes_TypeError
  | NonError _ =>
      status s' = "Failed" /\
      error s' = "An unknown error occurred during processing."
  end.
Proof.
  intros Hthrow s'.
  assert (Hs' : s' = run_events (run_events s0 (trace (processImage_try svc s b m)))
                       (after_throw e)).
  { unfold s', exec. rewrite (processImage_failure_trace _ _ _ _ _ Hthrow).
    apply run_events_app. }
  split.
  - rewrite Hs'. unfold after_throw. destruct (userMessage e); reflexivity.
  - destruct e as [message | | v].
    + pose proof (signals_quota_iff message) as Hsig.
      unfold after_throw in Hs'. cbn [userMessage] in Hs'.
      destruct (signals_quota (ErrorObj message)) eqn:Hq; rewrite Hs'.
      * split; [reflexivity |]. split; [reflexivity |].
        intros Hno. contradiction Hno. now apply Hsig.
      * split; [reflexivity |]. split; [| reflexivity].
        intros Hyes. apply Hsig in Hyes. discriminate Hyes.
    + now rewrite (processImage_failure_result _ _ _ _ _ Hthrow).
    + rewrite Hs'. split; reflexivity.
Qed.

Lemma failure_message_witness :
  let svc := Demo.svc_failing_at 1 (ErrorObj "request 14290 was cancelled") in
  result (processImage_try svc initialState (Some "QUJD") "image/png")
    = Thrown (ErrorObj "request 14290 was cancelled") /\
  error (exec (processImage svc initialState (Some "QUJD") "image/png") initialState)
    = quotaMessage.
Proof.
  intros svc.
  assert (Hthrow : result (processImage_try svc initialState (Some "QUJD") "image/png")
                   = Thrown (ErrorObj "request 14290 was cancelled")) by reflexivity.
  split.
  - exact Hthrow.
  - destruct (failure_message svc initialState initialState (Some "QUJD") "image/png"
                (ErrorObj "request 14290 was cancelled") Hthrow)
      as (_ & _ & Hquota & _).
    apply Hquota. exists "request 1", "0 was cancelled". right. reflexivity.
Defined.

(* ================================================================== *)
(** ** A render call that fails *)

Section RenderFailure.

Variable svc : GeminiService.
Variable s : AppState.
Variable file : File.
Variable r : string.
Variable prompts : list jsval.
Variable i : nat.
Variable e : thrown.

Hypothesis Hread : read_result file = Some r.
Hypothesis Hprompts :
  svc_getRotationPrompts svc (split_comma_1 r) (file_type file) (isObjectRotationOnly s)
    = Returned (Some prompts).
Hypothesis Hlen : (3 <= List.length prompts)%nat.
Hypothesis Hi : (i < 3)%nat.
Hypothesis Hbefore :
  forall j, (j < i)%nat ->
    exists img,
      svc_generateRotatedImage svc j (split_comma_1 r) (file_type file)
        (nth j prompts VUndefined) = Returned img.
Hypothesis Hfail :
  svc_generateRotatedImage svc i (split_comma_1 r) (file_type file)
    (nth i prompts VUndefined) = Thrown e.

Lemma render_failure_state :
  List.length
    (generatedImages (run_events s (trace (handleImageUpload svc s (Some file))))) = i /\
  (forall j, (j < i)%nat ->
     exists img,
       svc_generateRotatedImage svc j (split_comma_1 r) (file_type file)
         (nth j prompts VUndefined) = Returned img /\
       nth_error
         (generatedImages (run_events s (trace (handleImageUpload svc s (Some file))))) j
         = Some {| src := img; prompt := nth j prompts VUndefined |}) /\
  render_calls (trace (handleImageUpload svc s (Some file))) = S i /\
  error (run_events s (trace (handleImageUpload svc s (Some file))))
    = match userMessage e with
      | Some message => message
      | None => ""
      end /\
  status (run_events s (trace (handleImageUpload svc s (Some file))))
    = match userMessage e with
      | Some _ => "Failed"
      | None => " " ++ nat_str (i + 2) ++ "/4: Generating rotated view "
                    ++ nat_str (i + 1) ++ " of 3..."
      end /\
  isLoading (run_events s (trace (handleImageUpload svc s (Some file)))) = false /\
  result (handleImageUpload svc s (Some file))
    = match userMessage e with
      | Some _ => Returned tt
      | None => Thrown includes_TypeError
      end.
Proof using Hread Hprompts Hlen Hi Hbefore Hfail.
  unfold result, trace, handleImageUpload. rewrite Hread. unfold_run. cbn.
  rewrite Hprompts.
  destruct prompts as [|p0 [|p1 [|p2 rest]]]; cbn in Hlen; try lia.
  cbn in Hbefore, Hfail |- *.
  destruct i as [|[|[|k]]]; try lia.
  - cbn in Hfail. rewrite Hfail. cbn. rewrite processImage_catch_trace.
    destruct (userMessage e); cbn;
      (split; [reflexivity |]); (split; [intros j Hj; lia |]);
      repeat split; reflexivity.
  - destruct (Hbefore 0%nat ltac:(lia)) as [img0 E0]. cbn in E0, Hfail.
    rewrite E0. cbn. rewrite Hfail. cbn. rewrite processImage_catch_trace.
    destruct (userMessage e); cbn;
      (split; [reflexivity |]);
      (split; [intros j Hj; assert (j = 0%nat) as -> by lia; exists img0; cbn; auto |]);
      repeat split; reflexivity.
  - destruct (Hbefore 0%nat ltac:(lia)) as [img0 E0].
    destruct (Hbefore 1%nat ltac:(lia)) as [img1 E1]. cbn in E0, E1, Hfail.
    rewrite E0. cbn. rewrite E1. cbn. rewrite Hfail. cbn.
    rewrite processImage_catch_trace.
    destruct (userMessage e); cbn;
      (split; [reflexivity |]);
      (split; [intros j Hj; assert (j = 0%nat \/ j = 1%nat) as [-> | ->] by lia;
               [exists img0 | exists img1]; cbn; auto |]);
      repeat split; reflexivity.
Qed.

End RenderFailure.

(** C3 fails on the code, in the point that the error field is set.  The
    [catch] clause gives a thrown value that is no [Error] a fixed text, and
    an [Error] its own message, whatever that is.  When the second render
    call rejects with [new Error("")], the run ends as the claim says (one
    generated image, two render calls, status "Failed", loading cleared)
    but with the error empty, which is the unset value of the field: the
    page shows the word "Failed" and nothing else.  When it rejects with an
    [Error] whose message is no text, the [catch] clause itself throws:
    the run rejects with one generated image, the error empty and the
    status still naming the second render call. *)
Theorem render_failure_error_unset :
  (* the sibling arm: a thrown value that is no [Error] sets the error *)
  (let run := handleImageUpload (Demo.svc_failing_at 1 (NonError VUndefined))
                initialState (Some Demo.file) in
   error (exec run initialState) = "An unknown error occurred during processing.")
  /\
  (* [new Error("")] *)
  (let run := handleImageUpload (Demo.svc_failing_at 1 (ErrorObj ""))
                initialState (Some Demo.file) in
   let s' := exec run initialState in
   filter is_render (trace run)
     = [GenerateRotatedImage 0 (VString "low-angle hero") (Returned "data:image/png;base64,QUFB");
        GenerateRotatedImage 1 (VString "bird's-eye") (Thrown (ErrorObj ""))] /\
   List.length (generatedImages s') = 1%nat /\
   error s' = "" /\
   status s' = "Failed" /\
   isLoading s' = false /\
   banner (render s') = Some (StatusText "Failed") /\
   result run = Returned tt)
  /\
  (* an [Error] whose message is no text *)
  (let run := handleImageUpload (Demo.svc_failing_at 1 ErrorNoText)
                initialState (Some Demo.file) in
   let s' := exec run initialState in
   filter is_render (trace run)
     = [GenerateRotatedImage 0 (VString "low-angle hero") (Returned "data:image/png;base64,QUFB");
        GenerateRotatedImage 1 (VString "bird's-eye") (Thrown ErrorNoText)] /\
   List.length (generatedImages s') = 1%nat /\
   error s' = "" /\
   status s' = " 3/4: Generating rotated view 2 of 3..." /\
   isLoading s' = false /\
   banner (render s') = Some (StatusText " 3/4: Generating rotated view 2 of 3...") /\
   result run = Thrown includes_TypeError).
Proof.
  split; [reflexivity |].
  split; repeat split; reflexivity.
Qed.

(* ================================================================== *)
(** ** The generated images during a run *)

Ltac solve_grows :=
  cbn;
  repeat match goal with
         | |- _ /\ _ => split
         | |- extends _ _ => eexists; reflexivity
         | |- True => exact I
         end.

Ltac solve_sequence :=
  cbn;
  repeat match goal with
         | |- _ /\ _ => split
         | |- _ = _ => reflexivity
         | |- _ -> _ =>
             let H := fresh in
             intros H; first [ reflexivity | exfalso; apply H; reflexivity ]
         | |- True => exact I
         end.

Ltac solve_forall :=
  cbn; repeat (apply Forall_cons; [cbn; try lia; try reflexivity |]); try apply Forall_nil.

(** C8: a run starts by resetting the state; from there on, at every
    state the run goes through, [generatedImages] has at most three
    entries and extends what it was before (entries are only appended at
    the end); and at every point where the run is suspended, and at its
    end, its length is the number of render calls that have resolved. *)
Theorem generatedImages_invariant svc s file :
  exists rest,
    trace (handleImageUpload svc s (Some file)) = (trace resetState ++ rest)%list /\
    let s0 := exec resetState s in
    Forall (fun st => (List.length (generatedImages st) <= 3)%nat) (states s0 rest) /\
    grows (map generatedImages (states s0 rest)) /\
    Forall (fun p => List.length (generatedImages (fst p)) = snd p) (observe s0 0 rest).
Proof.
  destruct (read_result file) as [r |] eqn:Hr.
  - unfold trace, handleImageUpload; rewrite Hr; unfold_run; cbn; run_service svc;
      (eexists; split; [reflexivity |]);
      (split; [solve_forall | split; [solve_grows | solve_forall]]).
  - unfold trace, handleImageUpload; rewrite Hr; cbn.
    eexists; split; [reflexivity |].
    split; [solve_forall | split; [solve_grows | solve_forall]].
Qed.

(* ================================================================== *)
(** ** The pause between render calls *)

Section Clock.

Variable d : Z.
Variable dur : nat -> Z.
Hypothesis dur_nonneg : forall j, (0 <= dur j)%Z.

Lemma timers_respected_tail k e rest :
  timers_respected dur k (e :: rest) -> timers_respected dur (S k) rest.
Proof.
  intros H j ms Hj. specialize (H (S j) ms Hj).
  now rewrite Nat.add_succ_r in H.
Qed.

Lemma render_times_spaced t :
  forall k now acc last,
    timers_respected dur k t ->
    Forall (fun g => (d <= g)%Z) (pauses acc t) ->
    match last, acc with
    | Some l, Some a => (l + a <= now)%Z
    | None, None => True
    | _, _ => False
    end ->
    spaced_after last d (render_times dur k now t).
Proof using dur_nonneg.
  induction t as [| e rest IH]; intros k now acc last Htimers Hpauses Hclock.
  - exact I.
  - pose proof (dur_nonneg k) as Hk.
    pose proof (timers_respected_tail _ _ _ Htimers) as Htail.
    destruct e;
      try (cbn [render_times is_render app]; apply (IH (S k) _ acc last Htail Hpauses);
           destruct last, acc; auto; lia).
    + (* a render call *)
      cbn [render_times is_render app spaced_after]. cbn [pauses] in Hpauses.
      split.
      * destruct last as [l |], acc as [a |]; try contradiction; auto.
        inversion Hpauses; subst. lia.
      * apply (IH (S k) _ (Some 0%Z) (Some now) Htail).
        -- destruct acc; [now inversion Hpauses | exact Hpauses].
        -- lia.
    + (* a timer *)
      cbn [render_times is_render app]. cbn [pauses] in Hpauses.
      apply (IH (S k) _ (option_map (Z.add ms) acc) last Htail Hpauses).
      pose proof (Htimers 0%nat ms eq_refl) as Hms. rewrite Nat.add_0_r in Hms.
      destruct last, acc; cbn; auto; lia.
Qed.

End Clock.

Lemma upload_pauses svc s file :
  let t := trace (handleImageUpload svc s (Some file)) in
  (List.length (render_log t) <= 3)%nat /\
  in_sequence 0 (render_log t) /\
  Forall (fun g => g = 1000%Z) (pauses None t) /\
  trailing_pause 0 t = 0%Z.
Proof.
  destruct (read_result file) as [r |] eqn:Hr.
  - unfold trace, handleImageUpload; rewrite Hr; unfold_run; cbn; run_service svc;
      (split; [lia | split; [solve_sequence | split; [solve_forall | reflexivity]]]).
  - unfold trace, handleImageUpload; rewrite Hr; cbn.
    split; [lia | split; [solve_sequence | split; [solve_forall | reflexivity]]].
Qed.

(** C5: the render calls of a run are made one after the other: at most
    three, for the indices 0, 1, 2 in this order, each issued only after
    the one before it has resolved.  The pause between two successive
    render calls is one timer of exactly 1000 ms, and no timer follows the
    last render call.  Hence, on any clock on which no step takes negative
    time and no timer fires early, successive render calls are issued at
    least 1000 ms apart. *)
Theorem render_calls_paused svc s file :
  let t := trace (handleImageUpload svc s (Some file)) in
  (List.length (render_log t) <= 3)%nat /\
  in_sequence 0 (render_log t) /\
  Forall (fun g => g = 1000%Z) (pauses None t) /\
  trailing_pause 0 t = 0%Z /\
  forall dur,
    (forall j, (0 <= dur j)%Z) ->
    timers_respected dur 0 t ->
    spaced_after None 1000 (render_times dur 0 0 t).
Proof.
  intros t. destruct (upload_pauses svc s file) as (Hn & Hseq & Hp & Htrail).
  fold t in Hn, Hseq, Hp, Htrail.
  split; [exact Hn | split; [exact Hseq | split; [exact Hp | split; [exact Htrail |]]]].
  intros dur Hnonneg Htimers.
  apply (render_times_spaced 1000 dur Hnonneg t 0%nat 0%Z None None Htimers).
  - eapply Forall_impl; [| exact Hp]. cbn. intros g ->. lia.
  - exact I.
Qed.

Lemma render_calls_paused_witness :
  let t := trace (handleImageUpload (geminiService Demo.ai) initialState (Some Demo.file)) in
  (forall j, (0 <= (fun _ : nat => 1500) j)%Z) /\
  timers_respected (fun _ => 1500%Z) 0 t /\
  render_log t = [(0, true); (1, true); (2, true)]%nat /\
  pauses None t = [1000; 1000]%Z /\
  render_times (fun _ => 1500%Z) 0 0 t = [18000; 24000; 30000]%Z /\
  spaced_after None 1000 (render_times (fun _ => 1500%Z) 0 0 t).
Proof.
  intros t.
  assert (Hnonneg : forall j : nat, (0 <= (fun _ : nat => 1500) j)%Z) by (intros j; cbn; lia).
  assert (Htimers : timers_respected (fun _ => 1500%Z) 0 t).
  { intros j ms Hj. apply nth_error_In in Hj. cbn in Hj.
    repeat (destruct Hj as [Hj | Hj]; [try discriminate Hj; injection Hj as <-; lia |]).
    contradiction. }
  split; [exact Hnonneg |].
  split; [exact Htimers |].
  split; [reflexivity |].
  split; [reflexivity |].
  split; [reflexivity |].
  destruct (render_calls_paused (geminiService Demo.ai) initialState Demo.file)
    as (_ & _ & _ & _ & Hspaced).
  exact (Hspaced (fun _ => 1500%Z) Hnonneg Htimers).
Defined.

(* ================================================================== *)
(** ** What a steady state looks like *)

Lemma run_events_keeps_images t :
  Forall keeps_images t ->
  forall s,
    originalImage (run_events s t) = originalImage s /\
    generatedImages (run_events s t) = generatedImages s /\
    isLoading (run_events s t) = isLoading s.
Proof.
  induction 1 as [| e rest He _ IH]; intros s.
  - cbn. auto.
  - cbn [run_events fold_left]. fold (run_events (apply_event s e) rest).
    destruct (IH (apply_event s e)) as (Ho & Hg & Hl).
    rewrite Ho, Hg, Hl. destruct e; cbn in He; try contradiction; cbn; auto.
Qed.

(** Traces compose along the monad. *)
Section TraceForall.

Variable P : event -> Prop.

Lemma Forall_trace_ret {A} (a : A) : Forall P (trace (ret a)).
Proof. constructor. Qed.

Lemma Forall_trace_emit e : P e -> Forall P (trace (emit e)).
Proof. intros He. repeat constructor. exact He. Qed.

Lemma Forall_trace_bind {A B} (m : M A) (k : A -> M B) :
  Forall P (trace m) ->
  (forall a, Forall P (trace (k a))) ->
  Forall P (trace (bind m k)).
Proof.
  unfold bind, trace. destruct m as [t [a | e]]; cbn; intros Ht Hk.
  - specialize (Hk a). destruct (k a) as [t' r]. cbn in *.
    apply Forall_app. auto.
  - exact Ht.
Qed.

Lemma Forall_trace_try_catch {A} (body : M A) (handler : thrown -> M A) :
  Forall P (trace body) ->
  (forall e, Forall P (trace (handler e))) ->
  Forall P (trace (try_catch body handler)).
Proof.
  unfold try_catch, trace. destruct body as [t [a | e]]; cbn; intros Ht Hh.
  - exact Ht.
  - specialize (Hh e). destruct (handler e) as [t' r]. cbn in *.
    apply Forall_app. auto.
Qed.

End TraceForall.

Lemma add_generated_keeps_images browser images :
  forall i zip, Forall keeps_images (trace (add_generated browser images i zip)).
Proof.
  induction images as [| g rest IH]; intros i zip; cbn [add_generated].
  - apply Forall_trace_ret.
  - apply Forall_trace_bind.
    + repeat constructor.
    + intros blob. apply IH.
Qed.

Lemma handleDownloadZip_keeps_images browser s :
  Forall keeps_images (trace (handleDownloadZip browser s)).
Proof.
  unfold handleDownloadZip.
  destruct (negb (truthy_str (originalImage s)) || _); [apply Forall_trace_ret |].
  apply Forall_trace_bind; [now apply Forall_trace_emit | intros _].
  apply Forall_trace_try_catch.
  - apply Forall_trace_bind; [repeat constructor | intros blob].
    apply Forall_trace_bind; [apply add_generated_keeps_images | intros zip].
    apply Forall_trace_bind.
    + unfold await_generateAsync. destruct (generateAsync browser zip); repeat constructor.
    + intros content.
      apply Forall_trace_bind; [now apply Forall_trace_emit | intros _].
      now apply Forall_trace_emit.
  - intros e.
    apply Forall_trace_bind; [now apply Forall_trace_emit | intros _].
    apply Forall_trace_bind; [now apply Forall_trace_emit | intros _].
    now apply Forall_trace_emit.
Qed.

(** *** The page with handlers in flight *)

Lemma apply_event_frame a b e :
  same_frame a b -> same_frame (apply_event a e) (apply_event b e).
Proof.
  unfold same_frame. intros (Ho & Hg & Hl). destruct e; cbn; auto.
Qed.

Lemma Shape_frame a b : same_frame a b -> Shape a -> Shape b.
Proof.
  unfold same_frame, Shape. intros (Ho & Hg & _). now rewrite Ho, Hg.
Qed.

Lemma run_ok_frame r :
  forall a b, same_frame a b -> run_ok a r -> run_ok b r.
Proof.
  induction r as [| e rest IH]; intros a b Hf; cbn [run_ok].
  - intros [Hl Hs]. split.
    + destruct Hf as (_ & _ & <-). exact Hl.
    + exact (Shape_frame a b Hf Hs).
  - intros [Ha Hrest]. split.
    + destruct (is_await e); [| exact I]. destruct Hf as (_ & _ & <-). exact Ha.
    + exact (IH _ _ (apply_event_frame a b e Hf) Hrest).
Qed.

Lemma await_keeps_state e s : is_await e = true -> apply_event s e = s.
Proof. destruct e; cbn; try discriminate; reflexivity. Qed.

Lemma run_events_cons s e t : run_events s (e :: t) = run_events (apply_event s e) t.
Proof. reflexivity. Qed.

(** A run that goes on reaches its next awaited call loading, or its end
    in shape. *)
Lemma run_ok_segment r :
  forall s,
    run_ok s r ->
    match snd (next_segment r) with
    | Some rest =>
        isLoading (run_events s (fst (next_segment r))) = true /\
        run_ok (run_events s (fst (next_segment r))) rest
    | None =>
        isLoading (run_events s (fst (next_segment r))) = false /\
        Shape (run_events s (fst (next_segment r)))
    end.
Proof.
  induction r as [| e rest IH]; intros s; cbn [next_segment run_ok].
  - intros H. exact H.
  - intros [Ha Hrest]. destruct (is_await e) eqn:Hawait.
    + cbn [fst snd]. rewrite run_events_cons.
      rewrite (await_keeps_state e s Hawait) in *. split; assumption.
    + specialize (IH (apply_event s e) Hrest).
      destruct (next_segment rest) as [seg k]. cbn [fst snd] in *.
      rewrite run_events_cons. exact IH.
Qed.

(** An export that goes on leaves the images and the loading flag alone,
    and so does what it has left. *)
Lemma keeps_segment t s :
  Forall keeps_images t ->
  same_frame (run_events s (fst (next_segment t))) s /\
  match snd (next_segment t) with
  | Some rest => Forall keeps_images rest
  | None => True
  end.
Proof.
  intros Ht. rewrite (next_segment_app t) in Ht. apply Forall_app in Ht as [Hseg Hrest].
  split.
  - exact (run_events_keeps_images _ Hseg s).
  - destruct (snd (next_segment t)); [exact Hrest | exact I].
Qed.

Lemma split_two {A} (l1 l2 l3 l4 : list A) x y :
  (l1 ++ x :: l2 = l3 ++ y :: l4)%list ->
  (l1 = l3 /\ x = y /\ l2 = l4) \/
  (exists m, l3 = (l1 ++ x :: m)%list /\ l2 = (m ++ y :: l4)%list) \/
  (exists m, l1 = (l3 ++ y :: m)%list /\ l4 = (m ++ x :: l2)%list).
Proof.
  revert l3. induction l1 as [| a l1 IH]; intros [| b l3]; cbn.
  - intros [= -> ->]. left. auto.
  - intros [= -> ->]. right. left. exists l3. auto.
  - intros [= -> <-]. right. right. exists l1. auto.
  - intros [= -> H]. destruct (IH l3 H) as [(-> & -> & ->) | [(m & -> & ->) | (m & -> & ->)]].
    + left. auto.
    + right. left. exists m. auto.
    + right. right. exists m. auto.
Qed.

Ltac solve_run_ok :=
  cbn;
  repeat match goal with
         | |- _ /\ _ => split
         | |- True => exact I
         | |- _ = _ => reflexivity
         | |- (_ <= _)%nat => cbn; lia
         | |- [] <> [] -> _ => let H := fresh in intros H; now contradiction H
         | |- _ <> _ -> _ => intros _
         | |- prefix _ _ = true => apply prefix_app
         | |- Shape _ => unfold Shape; cbn
         | |- data_url _ => cbn
         end.

(** A run started while nothing is loading is a run in the sense of
    [run_ok]. *)
Lemma upload_run_ok svc s file :
  isLoading s = false -> Shape s ->
  run_ok s (trace (handleImageUpload svc s file)).
Proof.
  intros Hl Hs.
  destruct file as [file |]; [| cbn; auto].
  destruct (read_result file) as [r |] eqn:Hr.
  - unfold trace, handleImageUpload; rewrite Hr; unfold_run; cbn; run_service svc;
      solve_run_ok.
  - unfold trace, handleImageUpload; rewrite Hr; solve_run_ok.
Qed.

Lemma reachable_frame_ok p : reachable p -> frame_ok p.
Proof.
  induction 1 as [| svc s waiting file _ IH Hup | s waiting b _ IH Hup
                  | s waiting _ IH Hfin | browser s waiting _ IH Hfin
                  | s before t after _ IH]; unfold frame_ok in *; cbn [fst snd] in *.
  - left. split; [reflexivity |]. split; [| constructor].
    unfold Shape. cbn. split; [lia |]. split; [congruence | exact I].
  - destruct IH as [(Hl & Hs & Hw) | (Hl & _)]; [| destruct Hup as [_ Hup]; congruence].
    pose proof (run_ok_segment _ s (upload_run_ok svc s file Hl Hs)) as Hrun.
    unfold proceed. destruct (next_segment _) as [seg [rest |]]; cbn [fst snd] in *.
    + right. destruct Hrun as [Hl' Hrun]. split; [exact Hl' |].
      exists [], rest, waiting. auto.
    + left. destruct Hrun as [Hl' Hs']. auto.
  - destruct IH as [(Hl & Hs & Hw) | (Hl & _)]; [| destruct Hup as [_ Hup]; congruence].
    left. auto.
  - apply isFinished_spec in Hfin as [Hfin _].
    destruct IH as [(Hl & Hs & Hw) | (Hl & _)]; [| congruence].
    left. split; [reflexivity |]. split; [| exact Hw].
    unfold Shape. cbn. split; [lia |]. split; [congruence | exact I].
  - apply isFinished_spec in Hfin as [Hfin _].
    destruct IH as [(Hl & Hs & Hw) | (Hl & _)]; [| congruence].
    destruct (keeps_segment _ s (handleDownloadZip_keeps_images browser s)) as [Hf Hrest].
    unfold proceed. destruct (next_segment _) as [seg k]; cbn [fst snd] in *.
    left. split; [destruct Hf as (_ & _ & ->); exact Hl |].
    split; [apply (Shape_frame s); [| exact Hs]; destruct Hf as (Ho & Hg & Hi); repeat split; auto |].
    destruct k as [rest |]; [constructor; assumption | exact Hw].
  - destruct IH as [(Hl & Hs & Hw) | (Hl & before' & r & after' & Heq & Hw & Hrun)].
    + apply Forall_app in Hw as [Hb Ha]. apply Forall_cons_iff in Ha as [Ht Ha].
      destruct (keeps_segment _ s Ht) as [Hf Hrest].
      unfold proceed. destruct (next_segment t) as [seg k]; cbn [fst snd] in *.
      left. split; [destruct Hf as (_ & _ & ->); exact Hl |].
      split; [apply (Shape_frame s); [| exact Hs]; destruct Hf as (Ho & Hg & Hi); repeat split; auto |].
      assert (Hrest' : Forall (Forall keeps_images) (before ++ after)) by (apply Forall_app; auto).
      destruct k as [rest |]; [constructor; assumption | exact Hrest'].
    + destruct (split_two _ _ _ _ _ _ Heq)
        as [(-> & -> & ->) | [(m & -> & ->) | (m & -> & ->)]].
      * (* the run goes on *)
        pose proof (run_ok_segment _ s Hrun) as Hnext.
        unfold proceed. destruct (next_segment r) as [seg [rest |]]; cbn [fst snd] in *.
        -- right. destruct Hnext as [Hl' Hrun']. split; [exact Hl' |].
           exists [], rest, (before' ++ after')%list. auto.
        -- left. destruct Hnext as [Hl' Hs']. auto.
      * (* an export goes on, one that waits before the run *)
        assert (Hparts : Forall keeps_images t /\
                         Forall (Forall keeps_images) ((before ++ m) ++ after')).
        { rewrite <- app_assoc in Hw. apply Forall_app in Hw as [Hb Hw].
          cbn in Hw. apply Forall_cons_iff in Hw as [Ht Hw].
          apply Forall_app in Hw as [Hm Ha].
          split; [exact Ht |]. apply Forall_app. split; [| exact Ha]. apply Forall_app. auto. }
        destruct Hparts as [Ht Hothers].
        destruct (keeps_segment _ s Ht) as [Hf Hrest].
        unfold proceed. destruct (next_segment t) as [seg k]; cbn [fst snd] in *.
        right. split; [destruct Hf as (_ & _ & ->); exact Hl |].
        assert (Hrun' : run_ok (run_events s seg) r).
        { apply (run_ok_frame r s); [| exact Hrun].
          destruct Hf as (Ho & Hg & Hi). repeat split; auto. }
        destruct k as [rest |].
        -- exists (rest :: before ++ m)%list, r, after'.
           split; [cbn; now rewrite <- app_assoc |]. split; [| exact Hrun'].
           cbn. constructor; assumption.
        -- exists (before ++ m)%list, r, after'.
           split; [now rewrite <- app_assoc |]. auto.
      * (* an export goes on, one that waits behind the run *)
        assert (Hparts : Forall keeps_images t /\
                         Forall (Forall keeps_images) (before' ++ m ++ after)).
        { apply Forall_app in Hw as [Hb Hw]. apply Forall_app in Hw as [Hm Hw].
          apply Forall_cons_iff in Hw as [Ht Ha].
          split; [exact Ht |]. apply Forall_app. split; [exact Hb |]. apply Forall_app. auto. }
        destruct Hparts as [Ht Hothers].
        destruct (keeps_segment _ s Ht) as [Hf Hrest].
        unfold proceed. destruct (next_segment t) as [seg k]; cbn [fst snd] in *.
        right. split; [destruct Hf as (_ & _ & ->); exact Hl |].
        assert (Hrun' : run_ok (run_events s seg) r).
        { apply (run_ok_frame r s); [| exact Hrun].
          destruct Hf as (Ho & Hg & Hi). repeat split; auto. }
        destruct k as [rest |].
        -- exists (rest :: before')%list, r, (m ++ after)%list.
           split; [cbn; now rewrite <- app_assoc |]. split; [| exact Hrun'].
           cbn. constructor; assumption.
        -- exists before', r, (m ++ after)%list.
           split; [now rewrite <- app_assoc |]. auto.
Qed.

(** In a steady state nothing is loading, there are at most three
    generated images, and there are generated images only next to an
    original image. *)
Lemma steady_shape s :
  steady s ->
  isLoading s = false /\
  (List.length (generatedImages s) <= 3)%nat /\
  (generatedImages s <> [] -> truthy_str (originalImage s) = true).
Proof.
  intros Hs. destruct (reachable_frame_ok _ Hs) as [(Hl & (Hn & Ho & _) & _) | (_ & H)].
  - auto.
  - destruct H as (before & r & after & Heq & _). cbn in Heq. now destruct before.
Qed.

(** A finished steady state has an original image and exactly three
    generated images. *)
Lemma steady_finished_shape s :
  steady s -> isFinished s = true ->
  exists o g1 g2 g3,
    originalImage s = Some o /\ truthy_str (Some o) = true /\
    generatedImages s = [g1; g2; g3].
Proof.
  intros Hs Hfin. apply isFinished_spec in Hfin as [_ Hlen].
  destruct (steady_shape s Hs) as (_ & _ & Horig).
  destruct (generatedImages s) as [| g1 [| g2 [| g3 [| g4 rest]]]] eqn:Hg; try discriminate.
  specialize (Horig ltac:(discriminate)).
  destruct (originalImage s) as [o |] eqn:Ho; [| discriminate].
  exists o, g1, g2, g3. auto.
Qed.

(** C7: the archive of a finished run.  When every fetch and the
    compression succeed, the export of a finished steady state offers one
    archive whose entries are, in this order, [original.png] with the
    content of the original image, and [generated_1.png], [generated_2.png],
    [generated_3.png] with the contents of the three generated images in
    the order of [generatedImages]. *)
Theorem archive_entries browser s :
  steady s ->
  isFinished s = true ->
  (forall k url, exists blob, fetch_blob browser k url = Returned blob) ->
  (forall zip, generateAsync browser zip = Returned tt) ->
  exists o g1 g2 g3 b0 b1 b2 b3,
    originalImage s = Some o /\
    generatedImages s = [g1; g2; g3] /\
    fetch_blob browser 0 o = Returned b0 /\
    fetch_blob browser 1 (src g1) = Returned b1 /\
    fetch_blob browser 2 (src g2) = Returned b2 /\
    fetch_blob browser 3 (src g3) = Returned b3 /\
    archive_of (trace (handleDownloadZip browser s)) =
    Some [("original.png", b0); ("generated_1.png", b1);
          ("generated_2.png", b2); ("generated_3.png", b3)].
Proof.
  intros Hs Hfin Hfetch Hzip.
  destruct (steady_finished_shape s Hs Hfin) as (o & g1 & g2 & g3 & Ho & Ht & Hg).
  destruct (Hfetch 0%nat o) as [b0 E0].
  destruct (Hfetch 1%nat (src g1)) as [b1 E1].
  destruct (Hfetch 2%nat (src g2)) as [b2 E2].
  destruct (Hfetch 3%nat (src g3)) as [b3 E3].
  exists o, g1, g2, g3, b0, b1, b2, b3.
  repeat (split; [assumption |]).
  unfold handleDownloadZip. rewrite Ho, Ht, Hg. cbn.
  unfold try_catch, bind, await_fetch. rewrite E0. cbn.
  unfold bind, await_fetch. rewrite E1. cbn. rewrite E2. cbn. rewrite E3. cbn.
  unfold await_generateAsync. rewrite Hzip. reflexivity.
Qed.

Lemma archive_entries_witness :
  steady Demo.finished /\
  isFinished Demo.finished = true /\
  archive_of (trace (handleDownloadZip Demo.working_browser Demo.finished)) =
  Some [("original.png", BlobOf "data:image/png;base64,QUJD");
        ("generated_1.png", BlobOf "data:image/png;base64,QUFB");
        ("generated_2.png", BlobOf "data:image/png;base64,QUFB");
        ("generated_3.png", BlobOf "data:image/png;base64,QUFB")].
Proof.
  split; [exact steady_finished | split; [reflexivity |]].
  destruct (archive_entries Demo.working_browser Demo.finished steady_finished eq_refl)
    as (o & g1 & g2 & g3 & b0 & b1 & b2 & b3 & Ho & Hg & E0 & E1 & E2 & E3 & Harchive).
  - intros k url. eexists. reflexivity.
  - intros zip. reflexivity.
  - rewrite Harchive.
    injection Ho as <-. injection Hg as <- <- <-.
    injection E0 as <-. injection E1 as <-. injection E2 as <-. injection E3 as <-.
    reflexivity.
Defined.

(* ================================================================== *)
(** ** Error and status *)

(** Within a run, whenever the error is set the status has been replaced
    by "Failed" or cleared. *)
Lemma upload_error_replaces_status svc s file :
  let s' := exec (handleImageUpload svc s (Some file)) s in
  error s' <> "" -> status s' = "Failed" \/ status s' = "".
Proof.
  destruct (read_result file) as [r |] eqn:Hr.
  - unfold exec, trace, handleImageUpload; rewrite Hr; unfold_run; cbn; run_service svc;
      intros Herr; solve [ left; reflexivity | now contradiction Herr ].
  - unfold exec, trace, handleImageUpload; rewrite Hr; cbn. intros _. right. reflexivity.
Qed.

Lemma run_events_sets_no_error t :
  Forall sets_no_error t -> forall s, error (run_events s t) = error s.
Proof.
  induction 1 as [| e rest He _ IH]; intros s.
  - reflexivity.
  - cbn [run_events fold_left]. fold (run_events (apply_event s e) rest).
    rewrite IH. destruct e; cbn in He; try contradiction; reflexivity.
Qed.

Lemma add_generated_sets_no_error browser images :
  forall i zip, Forall sets_no_error (trace (add_generated browser images i zip)).
Proof.
  induction images as [| g rest IH]; intros i zip; cbn [add_generated].
  - apply Forall_trace_ret.
  - apply Forall_trace_bind.
    + repeat constructor.
    + intros blob. apply IH.
Qed.

Lemma bind_returned {A B} (m : M A) (k : A -> M B) (b : B) :
  result (bind m k) = Returned b ->
  exists a,
    result m = Returned a /\ result (k a) = Returned b /\
    trace (bind m k) = (trace m ++ trace (k a))%list.
Proof.
  unfold bind, result, trace. destruct m as [t [a | e]]; cbn.
  - intros H. exists a. destruct (k a) as [t' r]. cbn in *. auto.
  - discriminate.
Qed.

Lemma try_catch_cases {A} (body : M A) (handler : thrown -> M A) :
  (exists a, result body = Returned a /\ try_catch body handler = body) \/
  (exists e, result body = Thrown e /\
             trace (try_catch body handler) = (trace body ++ trace (handler e))%list).
Proof.
  unfold try_catch, result, trace. destruct body as [t [a | e]]; cbn.
  - left. eauto.
  - right. exists e. destruct (handler e). cbn. auto.
Qed.

Lemma trace_emit_then {A} e (m : M A) :
  trace (emit e ;; m) = e :: trace m.
Proof. unfold bind, emit, trace. destruct m. reflexivity. Qed.

(** An export does nothing (the guard), or ends with "Download complete!"
    and the error it found, or ends with its own error and the status
    "Failed". *)
Lemma export_outcome browser s :
  let s' := exec (handleDownloadZip browser s) s in
  s' = s \/
  (status s' = "Download complete!" /\ error s' = error s) \/
  (status s' = "Failed" /\ error s' = "Failed to create ZIP file.").
Proof.
  unfold exec, handleDownloadZip.
  destruct (negb (truthy_str (originalImage s)) || _); [left; reflexivity | right].
  set (body :=
         originalBlob <- await_fetch browser 0 (url_of (originalImage s)) ;;
         zip <- add_generated browser (generatedImages s) 0
                  (zip_file [] "original.png" originalBlob) ;;
         content <- await_generateAsync browser zip ;;
         emit (LinkClick "rotated-images.zip" content) ;;
         emit (SetStatus "Download complete!")).
  assert (Hbody : Forall sets_no_error (trace body)).
  { apply Forall_trace_bind; [repeat constructor | intros blob].
    apply Forall_trace_bind; [apply add_generated_sets_no_error | intros zip].
    apply Forall_trace_bind.
    - unfold await_generateAsync. destruct (generateAsync browser zip); repeat constructor.
    - intros content.
      apply Forall_trace_bind; [now apply Forall_trace_emit | intros _].
      now apply Forall_trace_emit. }
  rewrite trace_emit_then.
  destruct (try_catch_cases body
              (fun _ => emit ConsoleError ;; emit (SetError "Failed to create ZIP file.") ;;
                        emit (SetStatus "Failed")))
    as [(u & Hret & ->) | (e & Hthrow & ->)].
  - left.
    destruct (bind_returned _ _ _ Hret) as (blob & _ & Hret1 & Ht1).
    destruct (bind_returned _ _ _ Hret1) as (zip & _ & Hret2 & Ht2).
    destruct (bind_returned _ _ _ Hret2) as (content & _ & Hret3 & Ht3).
    split.
    + unfold body. rewrite Ht1, Ht2, Ht3, trace_emit_then.
      cbn [trace emit fst].
      rewrite !app_comm_cons, !app_assoc.
      replace [LinkClick "rotated-images.zip" content; SetStatus "Download complete!"]
        with ([LinkClick "rotated-images.zip" content] ++ [SetStatus "Download complete!"])%list
        by reflexivity.
      rewrite !app_assoc. rewrite run_events_app. reflexivity.
    + apply (run_events_sets_no_error (SetStatus "Creating ZIP file..." :: trace body)).
      constructor; [exact I | exact Hbody].
  - right. rewrite app_comm_cons, run_events_app. cbn. auto.
Qed.

(** *** The status the page rests with *)

Lemma last_status_app t u :
  last_status (t ++ u) = match last_status u with
                         | Some m => Some m
                         | None => last_status t
                         end.
Proof.
  induction t as [| e t IH]; cbn [app last_status].
  - now destruct (last_status u).
  - rewrite IH. now destruct (last_status u).
Qed.

Lemma status_run_events t :
  forall s, status (run_events s t) = match last_status t with
                                      | Some m => m
                                      | None => status s
                                      end.
Proof.
  induction t as [| e t IH]; intros s; [reflexivity |].
  rewrite run_events_cons, IH. cbn [last_status].
  destruct (last_status t); [reflexivity |]. now destruct e.
Qed.

Ltac solve_rest_status :=
  first
    [ exact I
    | left; unfold resting_status; tauto
    | left; unfold resting_status; auto; fail
    | right; left; reflexivity
    | right; right; exists 0%nat; split; [lia | reflexivity]
    | right; right; exists 1%nat; split; [lia | reflexivity]
    | right; right; exists 2%nat; split; [lia | reflexivity] ].

(** Every run ends on a status to rest with. *)
Lemma upload_ends_ok svc s file : ends_ok (trace (handleImageUpload svc s file)).
Proof.
  destruct file as [file |]; [| exact I].
  destruct (read_result file) as [r |] eqn:Hr.
  - unfold ends_ok, trace, handleImageUpload; rewrite Hr; unfold_run; cbn; run_service svc;
      unfold rest_status; solve_rest_status.
  - unfold ends_ok, trace, handleImageUpload; rewrite Hr; cbn.
    unfold rest_status; solve_rest_status.
Qed.

(** Every export ends on "Download complete!" or on "Failed". *)
Lemma download_ends_ok browser s : ends_ok (trace (handleDownloadZip browser s)).
Proof.
  unfold ends_ok, handleDownloadZip.
  destruct (negb (truthy_str (originalImage s)) || _); [exact I |].
  rewrite trace_emit_then.
  match goal with
  | |- context [try_catch ?body ?handler] =>
      destruct (try_catch_cases body handler) as [(u & Hret & ->) | (e & Hthrow & ->)]
  end.
  - destruct (bind_returned _ _ _ Hret) as (blob & _ & Hret1 & Ht1).
    destruct (bind_returned _ _ _ Hret1) as (zip & _ & Hret2 & Ht2).
    destruct (bind_returned _ _ _ Hret2) as (content & _ & Hret3 & Ht3).
    rewrite Ht1, Ht2, Ht3, trace_emit_then. cbn [trace emit fst].
    rewrite !app_comm_cons, !app_assoc, last_status_app. cbn.
    left. unfold resting_status. auto.
  - rewrite app_comm_cons, last_status_app. cbn.
    left. unfold resting_status. auto.
Qed.

Lemma next_segment_status t :
  last_status t = match snd (next_segment t) with
                  | Some rest =>
                      match last_status rest with
                      | Some m => Some m
                      | None => last_status (fst (next_segment t))
                      end
                  | None => last_status (fst (next_segment t))
                  end.
Proof.
  pose proof (next_segment_app t) as Ht.
  destruct (next_segment t) as [seg [rest |]]; cbn [fst snd] in *.
  - rewrite Ht at 1. apply last_status_app.
  - rewrite app_nil_r in Ht. now rewrite Ht at 1.
Qed.

(** A handler that ends on a status to rest with can go on. *)
Lemma status_proceed t s waiting :
  ends_ok t ->
  Forall ends_ok waiting ->
  rest_status (status s) \/ Exists has_status waiting \/ has_status t ->
  status_ok (proceed t (s, waiting)).
Proof.
  unfold status_ok, proceed, ends_ok, has_status.
  rewrite (next_segment_status t).
  destruct (next_segment t) as [seg [rest |]]; cbn [fst snd];
    rewrite (status_run_events seg s); intros Hend Hw Hst.
  - destruct (last_status rest) as [m |] eqn:Hrest.
    + split.
      * constructor; [now rewrite Hrest | exact Hw].
      * right. apply Exists_cons_hd. rewrite Hrest. discriminate.
    + split.
      * constructor; [now rewrite Hrest | exact Hw].
      * destruct (last_status seg) as [m |]; [left; exact Hend |].
        destruct Hst as [Hst | [Hst | Hst]].
        -- left. exact Hst.
        -- right. now apply Exists_cons_tl.
        -- now contradiction Hst.
  - split; [exact Hw |].
    destruct (last_status seg) as [m |]; [left; exact Hend |].
    destruct Hst as [Hst | [Hst | Hst]].
    + left. exact Hst.
    + right. exact Hst.
    + now contradiction Hst.
Qed.

Lemma reachable_status_ok p : reachable p -> status_ok p.
Proof.
  induction 1 as [| svc s waiting file _ IH Hup | s waiting b _ IH Hup
                  | s waiting _ IH Hfin | browser s waiting _ IH Hfin
                  | s before t after _ IH].
  - split; [constructor |]. left. left. unfold resting_status. auto.
  - destruct IH as [Hw Hst]. cbn [fst snd] in *.
    apply status_proceed; [apply upload_ends_ok | exact Hw | tauto].
  - exact IH.
  - destruct IH as [Hw _]. split; [exact Hw |]. left. left. unfold resting_status. cbn. auto.
  - destruct IH as [Hw Hst]. cbn [fst snd] in *.
    apply status_proceed; [apply download_ends_ok | exact Hw | tauto].
  - destruct IH as [Hw Hst]. cbn [fst snd] in *.
    apply Forall_app in Hw as [Hb Ha]. apply Forall_cons_iff in Ha as [Ht Ha].
    apply status_proceed; [exact Ht | apply Forall_app; auto |].
    destruct Hst as [Hst | Hst]; [left; exact Hst | right].
    apply Exists_app in Hst as [Hst | Hst].
    + left. apply Exists_app. auto.
    + apply Exists_cons in Hst as [Hst | Hst]; [right; exact Hst |].
      left. apply Exists_app. auto.
Qed.

(** The status of a steady state is empty, "Failed", "Processing
    complete!", "Download complete!", or the label of a stage. *)
Lemma steady_status s : steady s -> rest_status (status s).
Proof.
  intros Hs. destruct (reachable_status_ok _ Hs) as [_ [Hst | Hst]].
  - exact Hst.
  - inversion Hst.
Qed.

(** C4 fails on the code.  After a complete run, an archive export whose
    fetch fails sets the error (and the status "Failed"); the run is still
    finished, so the export can be started again, and [handleDownloadZip]
    never clears the error: during the second export the status is
    "Creating ZIP file..." and after it "Download complete!", both next to
    the error of the first attempt. *)
Theorem stale_error_after_export_retry :
  steady Demo.export_failed /\
  error Demo.export_failed = "Failed to create ZIP file." /\
  status Demo.export_failed = "Failed" /\
  isFinished Demo.export_failed = true /\
  map (fun p => (error (fst p), status (fst p)))
      (observe Demo.export_failed 0
         (trace (handleDownloadZip Demo.working_browser Demo.export_failed)))
  = [("Failed to create ZIP file.", "Creating ZIP file...");
     ("Failed to create ZIP file.", "Creating ZIP file...");
     ("Failed to create ZIP file.", "Creating ZIP file...");
     ("Failed to create ZIP file.", "Creating ZIP file...");
     ("Failed to create ZIP file.", "Creating ZIP file...");
     ("Failed to create ZIP file.", "Download complete!")] /\
  steady Demo.export_retried /\
  error Demo.export_retried = "Failed to create ZIP file." /\
  status Demo.export_retried = "Download complete!".
Proof.
  split; [exact steady_export_failed |].
  split; [reflexivity |].
  split; [reflexivity |].
  split; [reflexivity |].
  split; [reflexivity |].
  split; [exact steady_export_retried |].
  split; reflexivity.
Qed.


(* ================================================================== *)
(** ** The adapter *)

(** X1: the errors of [getRotationPrompts].  A rejection of the SDK call
    is passed on unchanged; a response text that [JSON.parse] refuses gives
    "The AI failed to return valid rotation instructions. Please try a
    different image."; a parsed value that is falsy, is not an object, or
    whose [prompts] is not an array gives "Could not get valid rotation
    prompts from the AI. The response was malformed.". *)
Theorem getRotationPrompts_errors ai b m o :
  (forall e,
     promptsResponse ai b m o = Thrown e ->
     getRotationPrompts ai b m o = Thrown e) /\
  (promptsResponse ai b m o = Returned None ->
   getRotationPrompts ai b m o =
   Thrown (ErrorObj
     "The AI failed to return valid rotation instructions. Please try a different image.")) /\
  (forall result,
     promptsResponse ai b m o = Returned (Some result) ->
     truthy result = false \/
     (forall fields, result <> VObject fields) \/
     (forall items, get_prop result "prompts" <> VArray items) ->
     getRotationPrompts ai b m o =
     Thrown (ErrorObj
       "Could not get valid rotation prompts from the AI. The response was malformed.")).
Proof.
  unfold getRotationPrompts. split; [| split].
  - intros e ->. reflexivity.
  - intros ->. reflexivity.
  - intros result -> Hbad.
    destruct (truthy result) eqn:Ht; [| reflexivity].
    destruct Hbad as [Hf | [Hobj | Harr]].
    + discriminate.
    + destruct result; try reflexivity. now contradiction (Hobj fields).
    + destruct (get_prop result "prompts") eqn:Hp; try reflexivity.
      now contradiction (Harr items).
Qed.

Lemma getRotationPrompts_errors_witness :
  getRotationPrompts
    {| promptsResponse := fun _ _ _ => Thrown (ErrorObj "fetch failed");
       imageResponse := imageResponse Demo.ai |} None "image/png" true
  = Thrown (ErrorObj "fetch failed") /\
  getRotationPrompts
    {| promptsResponse := fun _ _ _ => Returned None;
       imageResponse := imageResponse Demo.ai |} None "image/png" true
  = Thrown (ErrorObj
      "The AI failed to return valid rotation instructions. Please try a different image.") /\
  getRotationPrompts
    {| promptsResponse := fun _ _ _ =>
         Returned (Some (VArray [VString "a"; VString "b"; VString "c"]));
       imageResponse := imageResponse Demo.ai |} None "image/png" true
  = Thrown (ErrorObj
      "Could not get valid rotation prompts from the AI. The response was malformed.").
Proof.
  split; [| split].
  - apply (proj1 (getRotationPrompts_errors _ None "image/png" true)). reflexivity.
  - apply (proj1 (proj2 (getRotationPrompts_errors _ None "image/png" true))). reflexivity.
  - apply (proj2 (proj2 (getRotationPrompts_errors _ None "image/png" true))
             (VArray [VString "a"; VString "b"; VString "c"])).
    + reflexivity.
    + right. left. intros fields. discriminate.
Defined.

Lemma upload_derive_thrown svc s file r e :
  read_result file = Some r ->
  svc_getRotationPrompts svc (split_comma_1 r) (file_type file) (isObjectRotationOnly s)
    = Thrown e ->
  let t := trace (handleImageUpload svc s (Some file)) in
  render_calls t = 0%nat /\
  generatedImages (run_events s t) = [] /\
  error (run_events s t) = match userMessage e with
                           | Some message => message
                           | None => ""
                           end /\
  status (run_events s t) = match userMessage e with
                            | Some _ => "Failed"
                            | None => "1/4: Analyzing camera angle..."
                            end /\
  isLoading (run_events s t) = false.
Proof.
  intros Hr Hd.
  unfold trace, handleImageUpload; rewrite Hr; unfold_run; cbn.
  rewrite Hd. cbn. rewrite processImage_catch_trace.
  destruct (userMessage e); cbn; repeat split; reflexivity.
Qed.

(** X2: with the adapter of the repository, a response whose text is not
    JSON ends the run before any render call, with the adapter's message
    as the error, no generated image, status "Failed" and loading
    cleared. *)
Theorem upload_unparsable_response ai s file r :
  read_result file = Some r ->
  promptsResponse ai (split_comma_1 r) (file_type file) (isObjectRotationOnly s)
    = Returned None ->
  let t := trace (handleImageUpload (geminiService ai) s (Some file)) in
  render_calls t = 0%nat /\
  generatedImages (run_events s t) = [] /\
  error (run_events s t)
    = "The AI failed to return valid rotation instructions. Please try a different image." /\
  status (run_events s t) = "Failed" /\
  isLoading (run_events s t) = false.
Proof.
  intros Hr Hresp.
  apply (upload_derive_thrown (geminiService ai) s file r
           (ErrorObj "The AI failed to return valid rotation instructions. Please try a different image.") Hr).
  cbn. unfold getRotationPrompts. rewrite Hresp. reflexivity.
Qed.

Lemma upload_unparsable_response_witness :
  let ai := {| promptsResponse := fun _ _ _ => Returned None;
               imageResponse := imageResponse Demo.ai |} in
  let t := trace (handleImageUpload (geminiService ai) initialState (Some Demo.file)) in
  render_calls t = 0%nat /\
  generatedImages (run_events initialState t) = [] /\
  error (run_events initialState t)
    = "The AI failed to return valid rotation instructions. Please try a different image." /\
  status (run_events initialState t) = "Failed" /\
  isLoading (run_events initialState t) = false.
Proof.
  intros ai.
  apply (upload_unparsable_response ai initialState Demo.file "data:image/png;base64,QUJD").
  - reflexivity.
  - reflexivity.
Defined.

Lemma find_inline_first pre p d post :
  Forall no_inline pre -> inlineData p = Some d ->
  find_inline (pre ++ p :: post) = Some d.
Proof.
  induction 1 as [| q pre Hq _ IH]; intros Hp; cbn.
  - now rewrite Hp.
  - rewrite Hq. auto.
Qed.

Lemma find_inline_none parts :
  Forall no_inline parts -> find_inline parts = None.
Proof.
  induction 1 as [| q rest Hq _ IH]; cbn; [reflexivity |]. now rewrite Hq.
Qed.

(** X3: [generateRotatedImage] passes a rejection of the SDK call on
    unchanged; otherwise it returns the data URL built from the first part
    that has inline data, whatever comes after it, and throws "The AI did
    not return an image. ..." when there are no parts or none has inline
    data.  Whatever it returns starts with "data:". *)
Theorem generateRotatedImage_first_image ai k b m p :
  (forall e,
     imageResponse ai k b m p = Thrown e ->
     generateRotatedImage ai k b m p = Thrown e) /\
  (forall pre part d post,
     imageResponse ai k b m p = Returned (Some (pre ++ part :: post)%list) ->
     Forall no_inline pre ->
     inlineData part = Some d ->
     generateRotatedImage ai k b m p =
     Returned ("data:" ++ interp (inline_mimeType d) ++ ";base64," ++ interp (inline_data d))) /\
  (forall parts,
     imageResponse ai k b m p = Returned parts ->
     match parts with
     | Some ps => Forall no_inline ps
     | None => True
     end ->
     generateRotatedImage ai k b m p =
     Thrown (ErrorObj
       "The AI did not return an image. It might not be able to process this request.")) /\
  (forall url,
     generateRotatedImage ai k b m p = Returned url ->
     prefix "data:" url = true).
Proof.
  unfold generateRotatedImage. split; [| split; [| split]].
  - intros e ->. reflexivity.
  - intros pre part d post -> Hpre Hd.
    now rewrite (find_inline_first pre part d post Hpre Hd).
  - intros parts -> Hnone. destruct parts as [ps |]; [| reflexivity].
    now rewrite (find_inline_none ps Hnone).
  - intros url.
    destruct (imageResponse ai k b m p) as [parts | e]; [| discriminate].
    destruct (match parts with Some ps => find_inline ps | None => None end);
      [| discriminate].
    intros [= <-]. apply prefix_app.
Qed.

Lemma generateRotatedImage_first_image_witness :
  generateRotatedImage Demo.ai 0 (Some "QUJD") "image/png" (VString "low-angle hero")
    = Returned "data:image/png;base64,QUFB" /\
  generateRotatedImage
    {| promptsResponse := promptsResponse Demo.ai;
       imageResponse := fun _ _ _ _ => Returned (Some [ {| inlineData := None |} ]) |}
    0 (Some "QUJD") "image/png" (VString "low-angle hero")
    = Thrown (ErrorObj
        "The AI did not return an image. It might not be able to process this request.") /\
  prefix "data:" "data:image/png;base64,QUFB" = true.
Proof.
  split; [| split].
  - apply (proj1 (proj2 (generateRotatedImage_first_image Demo.ai 0 (Some "QUJD") "image/png"
                           (VString "low-angle hero")))
             [ {| inlineData := None |} ] Demo.image_part
             {| inline_mimeType := Some "image/png"; inline_data := Some "QUFB" |} []).
    + reflexivity.
    + repeat constructor.
    + reflexivity.
  - apply (proj1 (proj2 (proj2 (generateRotatedImage_first_image _ 0 (Some "QUJD") "image/png"
                                  (VString "low-angle hero"))))
             (Some [ {| inlineData := None |} ])).
    + reflexivity.
    + repeat constructor.
  - apply (proj2 (proj2 (proj2 (generateRotatedImage_first_image Demo.ai 0 (Some "QUJD")
                                  "image/png" (VString "low-angle hero"))))).
    reflexivity.
Defined.

(** X4: with the adapter of the repository, when the response to the i-th
    render request carries no image after the earlier ones did, the run
    ends with exactly [i] generated images and the error "The AI did not
    return an image. It might not be able to process this request.". *)
Theorem upload_render_without_image ai s file r prompts i parts :
  read_result file = Some r ->
  getRotationPrompts ai (split_comma_1 r) (file_type file) (isObjectRotationOnly s)
    = Returned prompts ->
  (i < 3)%nat ->
  (forall j, (j < i)%nat ->
     exists img,
       generateRotatedImage ai j (split_comma_1 r) (file_type file)
         (nth j prompts VUndefined) = Returned img) ->
  imageResponse ai i (split_comma_1 r) (file_type file) (nth i prompts VUndefined)
    = Returned parts ->
  match parts with
  | Some ps => Forall no_inline ps
  | None => True
  end ->
  let s' := exec (handleImageUpload (geminiService ai) s (Some file)) s in
  List.length (generatedImages s') = i /\
  error s' = "The AI did not return an image. It might not be able to process this request." /\
  status s' = "Failed" /\
  isLoading s' = false.
Proof.
  intros Hr Hd Hi Hbefore Hresp Hnone s'.
  destruct (getRotationPrompts_returned _ _ _ _ _ Hd) as [Hlen _].
  destruct (render_failure_state (geminiService ai) s file r prompts i
              (ErrorObj "The AI did not return an image. It might not be able to process this request."))
    as (Hn & _ & _ & Herr & Hst & Hload & _).
  - exact Hr.
  - cbn. now rewrite Hd.
  - lia.
  - exact Hi.
  - exact Hbefore.
  - cbn. unfold generateRotatedImage. rewrite Hresp.
    destruct parts as [ps |]; [| reflexivity].
    now rewrite (find_inline_none ps Hnone).
  - unfold s', exec. repeat split; assumption.
Qed.

Lemma upload_render_without_image_witness :
  let ai := {| promptsResponse := promptsResponse Demo.ai;
               imageResponse := fun k _ _ _ =>
                 if (k =? 1)%nat then Returned None else imageResponse Demo.ai k None "" VNull |} in
  let s' := exec (handleImageUpload (geminiService ai) initialState (Some Demo.file))
              initialState in
  List.length (generatedImages s') = 1%nat /\
  error s' = "The AI did not return an image. It might not be able to process this request." /\
  status s' = "Failed" /\
  isLoading s' = false.
Proof.
  intros ai.
  apply (upload_render_without_image ai initialState Demo.file "data:image/png;base64,QUJD"
           [VString "low-angle hero"; VString "bird's-eye"; VString "dutch tilt"] 1%nat None).
  - reflexivity.
  - reflexivity.
  - lia.
  - intros j Hj. assert (j = 0%nat) as -> by lia. eexists. reflexivity.
  - reflexivity.
  - exact I.
Defined.

(* ================================================================== *)
(** ** A run from the upload to its end *)

(** X5: a run whose prompt derivation hands over at least three prompts
    and whose three render calls succeed ends finished: the original image
    is the data URL rebuilt from the file, [generatedImages] holds the
    three results in the order of the first three prompts, each with its
    prompt, the status is "Processing complete!", no error is set, loading
    is cleared, and exactly three render calls were made; prompts beyond
    the third are not used. *)
Theorem upload_success svc s file r prompts img0 img1 img2 :
  read_result file = Some r ->
  svc_getRotationPrompts svc (split_comma_1 r) (file_type file) (isObjectRotationOnly s)
    = Returned (Some prompts) ->
  (3 <= List.length prompts)%nat ->
  svc_generateRotatedImage svc 0 (split_comma_1 r) (file_type file)
    (nth 0 prompts VUndefined) = Returned img0 ->
  svc_generateRotatedImage svc 1 (split_comma_1 r) (file_type file)
    (nth 1 prompts VUndefined) = Returned img1 ->
  svc_generateRotatedImage svc 2 (split_comma_1 r) (file_type file)
    (nth 2 prompts VUndefined) = Returned img2 ->
  exec (handleImageUpload svc s (Some file)) s =
  {| originalImage :=
       Some ("data:" ++ file_type file ++ ";base64," ++ interp (split_comma_1 r));
     generatedImages :=
       [ {| src := img0; prompt := nth 0 prompts VUndefined |};
         {| src := img1; prompt := nth 1 prompts VUndefined |};
         {| src := img2; prompt := nth 2 prompts VUndefined |} ];
     isObjectRotationOnly := isObjectRotationOnly s;
     isLoading := false;
     status := "Processing complete!";
     error := "" |} /\
  isFinished (exec (handleImageUpload svc s (Some file)) s) = true /\
  render_calls (trace (handleImageUpload svc s (Some file))) = 3%nat.
Proof.
  intros Hr Hd Hlen E0 E1 E2.
  destruct prompts as [|p0 [|p1 [|p2 rest]]]; cbn in Hlen; try lia.
  cbn in E0, E1, E2.
  unfold exec, trace, handleImageUpload; rewrite Hr; unfold_run; cbn.
  rewrite Hd. cbn. rewrite E0. cbn. rewrite E1. cbn. rewrite E2. cbn.
  split; [reflexivity | split; reflexivity].
Qed.

Lemma upload_success_witness :
  exec (handleImageUpload (geminiService Demo.ai) initialState (Some Demo.file)) initialState =
  {| originalImage := Some "data:image/png;base64,QUJD";
     generatedImages :=
       [ {| src := "data:image/png;base64,QUFB"; prompt := VString "low-angle hero" |};
         {| src := "data:image/png;base64,QUFB"; prompt := VString "bird's-eye" |};
         {| src := "data:image/png;base64,QUFB"; prompt := VString "dutch tilt" |} ];
     isObjectRotationOnly := false;
     isLoading := false;
     status := "Processing complete!";
     error := "" |} /\
  isFinished
    (exec (handleImageUpload (geminiService Demo.ai) initialState (Some Demo.file)) initialState)
    = true /\
  render_calls (trace (handleImageUpload (geminiService Demo.ai) initialState (Some Demo.file)))
    = 3%nat.
Proof.
  apply (upload_success (geminiService Demo.ai) initialState Demo.file
           "data:image/png;base64,QUJD"
           [VString "low-angle hero"; VString "bird's-eye"; VString "dutch tilt"]
           "data:image/png;base64,QUFB" "data:image/png;base64,QUFB"
           "data:image/png;base64,QUFB").
  - reflexivity.
  - reflexivity.
  - cbn. lia.
  - reflexivity.
  - reflexivity.
  - reflexivity.
Defined.

Lemma result_try_catch {A} (body : M A) (handler : thrown -> M A) :
  result (try_catch body handler) =
  match result body with
  | Returned a => Returned a
  | Thrown e => result (handler e)
  end.
Proof.
  unfold try_catch, result. destruct body as [t [a | e]]; cbn; [reflexivity |].
  now destruct (handler e).
Qed.

Lemma result_emit_then {A} e (m : M A) : result (emit e ;; m) = result m.
Proof. unfold bind, emit, result. now destruct m. Qed.

(** X6: when the handlers reject.  [processImage] rejects in one case
    only: its [try] block threw an [Error] whose message is no text, so
    that the [catch] clause itself throws, a [TypeError]; whatever else
    the service throws is caught.  Either way the last thing it does is
    [setIsLoading(false)].  [handleDownloadZip] never rejects: whatever
    the browser throws is caught, and its [catch] clause does not throw. *)
Theorem handler_rejections :
  (forall svc s b m,
     result (processImage svc s b m) =
     match result (processImage_try svc s b m) with
     | Thrown ErrorNoText => Thrown includes_TypeError
     | _ => Returned tt
     end) /\
  (forall svc s b m,
     exists t, trace (processImage svc s b m) = (t ++ [SetIsLoading false])%list) /\
  (forall browser s, result (handleDownloadZip browser s) = Returned tt).
Proof.
  split; [| split].
  - intros svc s b m. unfold processImage, try_finally, try_catch, result.
    destruct (processImage_try svc s b m) as [t [[] | e]]; cbn.
    + reflexivity.
    + rewrite processImage_catch_trace. destruct e as [message | | v]; reflexivity.
  - intros svc s b m. unfold processImage, try_finally, trace.
    destruct (try_catch _ _) as [t r]. exists t. now destruct r.
  - intros browser s. unfold handleDownloadZip.
    destruct (negb (truthy_str (originalImage s)) || _); [reflexivity |].
    rewrite result_emit_then, result_try_catch.
    match goal with
    | |- match result ?body with _ => _ end = _ => destruct (result body) as [[] | e]
    end; reflexivity.
Qed.

(** X7: when the file cannot be read the run stops there: no call goes to
    the service, the state is the reset state with the error "Failed to
    read the image file.", and the upload control reacts again. *)
Theorem upload_read_failure svc s file :
  read_result file = None ->
  exec (handleImageUpload svc s (Some file)) s =
  {| originalImage := None;
     generatedImages := [];
     isObjectRotationOnly := isObjectRotationOnly s;
     isLoading := false;
     status := "";
     error := "Failed to read the image file." |} /\
  filter is_service_call (trace (handleImageUpload svc s (Some file))) = [] /\
  can_upload (render (exec (handleImageUpload svc s (Some file)) s)) = true.
Proof.
  intros Hr. unfold exec, trace, handleImageUpload. rewrite Hr. cbn.
  split; [reflexivity | split; reflexivity].
Qed.

Lemma upload_read_failure_witness :
  let file := {| file_type := "image/png"; read_result := None |} in
  exec (handleImageUpload (geminiService Demo.ai) Demo.finished (Some file)) Demo.finished =
  {| originalImage := None;
     generatedImages := [];
     isObjectRotationOnly := false;
     isLoading := false;
     status := "";
     error := "Failed to read the image file." |} /\
  filter is_service_call
    (trace (handleImageUpload (geminiService Demo.ai) Demo.finished (Some file))) = [] /\
  can_upload
    (render (exec (handleImageUpload (geminiService Demo.ai) Demo.finished (Some file))
               Demo.finished)) = true.
Proof.
  intros file.
  apply (upload_read_failure (geminiService Demo.ai) Demo.finished file). reflexivity.
Defined.

(** X8: the data URL of the file.  When the reader's result is
    [data:<type>;base64,<payload>] for the file's own type, with no comma
    in the type or the payload, the original image is exactly the reader's
    result and [processImage] gets the payload.  When the result has no
    comma at all, the payload is [undefined]: the original image becomes
    [data:<type>;base64,undefined] and [processImage] still runs, without
    an image. *)
Theorem upload_data_url svc s file :
  (forall payload,
     includes (file_type file) "," = false ->
     includes payload "," = false ->
     read_result file = Some ("data:" ++ file_type file ++ ";base64," ++ payload) ->
     handleImageUpload svc s (Some file) =
     (resetState ;;
      emit (SetIsLoading true) ;;
      emit (SetStatus "Reading image...") ;;
      emit (ReadAsDataURL (read_result file)) ;;
      emit (SetOriginalImage (read_result file)) ;;
      processImage svc s (Some payload) (file_type file)))
  /\
  (forall r,
     includes r "," = false ->
     read_result file = Some r ->
     handleImageUpload svc s (Some file) =
     (resetState ;;
      emit (SetIsLoading true) ;;
      emit (SetStatus "Reading image...") ;;
      emit (ReadAsDataURL (Some r)) ;;
      emit (SetOriginalImage (Some ("data:" ++ file_type file ++ ";base64,undefined"))) ;;
      processImage svc s None (file_type file))).
Proof.
  split.
  - intros payload Ht Hp Hr. unfold handleImageUpload. rewrite Hr.
    rewrite (split_comma_1_data_url _ _ Ht Hp). reflexivity.
  - intros r Hc Hr. unfold handleImageUpload. rewrite Hr.
    rewrite (split_comma_1_none _ Hc). reflexivity.
Qed.

Lemma upload_data_url_witness :
  handleImageUpload (geminiService Demo.ai) initialState (Some Demo.file) =
  (resetState ;;
   emit (SetIsLoading true) ;;
   emit (SetStatus "Reading image...") ;;
   emit (ReadAsDataURL (Some "data:image/png;base64,QUJD")) ;;
   emit (SetOriginalImage (Some "data:image/png;base64,QUJD")) ;;
   processImage (geminiService Demo.ai) initialState (Some "QUJD") "image/png")
  /\
  handleImageUpload (geminiService Demo.ai) initialState
    (Some {| file_type := "image/png"; read_result := Some "data:" |}) =
  (resetState ;;
   emit (SetIsLoading true) ;;
   emit (SetStatus "Reading image...") ;;
   emit (ReadAsDataURL (Some "data:")) ;;
   emit (SetOriginalImage (Some "data:image/png;base64,undefined")) ;;
   processImage (geminiService Demo.ai) initialState None "image/png").
Proof.
  split.
  - apply (proj1 (upload_data_url (geminiService Demo.ai) initialState Demo.file) "QUJD");
      reflexivity.
  - apply (proj2 (upload_data_url (geminiService Demo.ai) initialState
                    {| file_type := "image/png"; read_result := Some "data:" |}) "data:");
      reflexivity.
Defined.

(** X9: the [catch] clause of [processImage] takes an [Error] for a quota
    error exactly when its message contains the text [RESOURCE_EXHAUSTED]
    or the text [429] anywhere: then it sets the quota message, and
    otherwise the message of the error itself. *)
Theorem quota_detection_by_substring message :
  ((exists pre post,
      message = pre ++ "RESOURCE_EXHAUSTED" ++ post \/ message = pre ++ "429" ++ post) ->
   processImage_catch (ErrorObj message)
     = ([ConsoleError; SetError quotaMessage; SetStatus "Failed"], Returned tt)) /\
  (~ (exists pre post,
        message = pre ++ "RESOURCE_EXHAUSTED" ++ post \/ message = pre ++ "429" ++ post) ->
   processImage_catch (ErrorObj message)
     = ([ConsoleError; SetError message; SetStatus "Failed"], Returned tt)).
Proof.
  pose proof (signals_quota_iff message) as Hsig.
  rewrite processImage_catch_trace. cbn [userMessage].
  destruct (signals_quota (ErrorObj message)) eqn:Hq.
  - split; [reflexivity |]. intros Hno. contradiction Hno. now apply Hsig.
  - split; [| reflexivity]. intros H. apply Hsig in H. discriminate.
Qed.

Lemma quota_detection_by_substring_witness :
  processImage_catch (ErrorObj "request 14290 was cancelled")
    = ([ConsoleError; SetError quotaMessage; SetStatus "Failed"], Returned tt) /\
  processImage_catch (ErrorObj "")
    = ([ConsoleError; SetError ""; SetStatus "Failed"], Returned tt).
Proof.
  split.
  - apply (proj1 (quota_detection_by_substring "request 14290 was cancelled")).
    exists "request 1", "0 was cancelled". right. reflexivity.
  - apply (proj2 (quota_detection_by_substring "")).
    intros (pre & post & [H | H]); destruct pre; discriminate H.
Defined.

Ltac solve_suspensions :=
  cbn;
  repeat (apply Forall_cons; [cbn; repeat split; reflexivity |]);
  apply Forall_nil.



(** X12: the three result cells during a run.  At every point where the
    run is suspended, and at its end, with [n] render calls resolved: the
    first [n] cells show the [n] generated images in order, each with its
    prompt, and no spinner; each remaining cell shows no image, gets no
    prompt, and shows the spinner exactly while the page is loading. *)
Theorem run_cells svc s file :
  exists rest,
    trace (handleImageUpload svc s (Some file)) = (trace resetState ++ rest)%list /\
    Forall
      (fun p =>
         map cell_image (cells (render (fst p))) =
         (map (fun g => Some (src g)) (generatedImages (fst p))
            ++ repeat None (3 - snd p))%list /\
         map cell_spinner (cells (render (fst p))) =
         (repeat false (snd p) ++ repeat (isLoading (fst p)) (3 - snd p))%list /\
         map cell_prompt (cells (render (fst p))) =
         (map prompt (generatedImages (fst p)) ++ repeat VUndefined (3 - snd p))%list)
      (observe (exec resetState s) 0 rest).
Proof.
  destruct (read_result file) as [r |] eqn:Hr.
  - unfold trace, handleImageUpload; rewrite Hr; unfold_run; cbn; run_service svc;
      (eexists; split; [reflexivity |]); solve_suspensions.
  - unfold trace, handleImageUpload; rewrite Hr; cbn.
    eexists; split; [reflexivity |]. solve_suspensions.
Qed.







Lemma trace_bind_returned_unit {A} (m : M unit) (k : unit -> M A) t :
  m = (t, Returned tt) -> trace (bind m k) = (t ++ trace (k tt))%list.
Proof. intros ->. unfold bind, trace. now destruct (k tt). Qed.

(** X15: a run starts clean: what the page held before (images, status,
    error of an earlier run) has no influence on the run or on the state
    it ends in; only the rotation mode is taken over. *)
Theorem run_starts_clean svc s1 s2 file :
  isObjectRotationOnly s1 = isObjectRotationOnly s2 ->
  handleImageUpload svc s1 (Some file) = handleImageUpload svc s2 (Some file) /\
  exec (handleImageUpload svc s1 (Some file)) s1 =
  exec (handleImageUpload svc s2 (Some file)) s2.
Proof.
  intros Hmode.
  assert (Hsame : handleImageUpload svc s1 (Some file) = handleImageUpload svc s2 (Some file)).
  { unfold handleImageUpload, processImage, processImage_try. now rewrite Hmode. }
  split; [exact Hsame |].
  unfold exec. rewrite Hsame.
  unfold handleImageUpload.
  rewrite (trace_bind_returned_unit resetState _ (trace resetState) eq_refl).
  rewrite !run_events_app.
  replace (run_events s1 (trace resetState)) with (run_events s2 (trace resetState));
    [reflexivity |].
  cbn. now rewrite Hmode.
Qed.

Lemma run_starts_clean_witness :
  exec (handleImageUpload (geminiService Demo.ai) Demo.export_failed (Some Demo.file))
    Demo.export_failed =
  exec (handleImageUpload (geminiService Demo.ai) initialState (Some Demo.file)) initialState.
Proof.
  apply (run_starts_clean (geminiService Demo.ai) Demo.export_failed initialState Demo.file).
  reflexivity.
Defined.

(** X16: the rotation mode.  The prompt derivation of a run is called with
    the mode of the state the upload started in, and a run never sets the
    mode: it ends with the mode it started with. *)
Theorem mode_flag svc s file :
  Forall
    (fun e =>
       match e with
       | GetRotationPrompts objectOnly _ => objectOnly = isObjectRotationOnly s
       | SetIsObjectRotationOnly _ => False
       | _ => True
       end)
    (trace (handleImageUpload svc s (Some file))) /\
  isObjectRotationOnly (exec (handleImageUpload svc s (Some file)) s) = isObjectRotationOnly s.
Proof.
  destruct (read_result file) as [r |] eqn:Hr.
  - unfold exec, trace, handleImageUpload; rewrite Hr; unfold_run; cbn; run_service svc;
      (split; [repeat (apply Forall_cons; [first [exact I | reflexivity] |]); apply Forall_nil
              | reflexivity]).
  - unfold exec, trace, handleImageUpload; rewrite Hr; cbn.
    split; [repeat (apply Forall_cons; [first [exact I | reflexivity] |]); apply Forall_nil
           | reflexivity].
Qed.

(* ================================================================== *)
(** ** The export, in general *)

Lemma add_generated_events (P : event -> Prop) browser images :
  (forall url r, P (Fetch url r)) ->
  forall i zip, Forall P (trace (add_generated browser images i zip)).
Proof.
  intros HP. induction images as [| g rest IH]; intros i zip; cbn [add_generated].
  - apply Forall_trace_ret.
  - apply Forall_trace_bind.
    + repeat constructor. apply HP.
    + intros blob. apply IH.
Qed.

Lemma await_generateAsync_events (P : event -> Prop) browser zip :
  (forall r, P (GenerateAsync r)) ->
  Forall P (trace (await_generateAsync browser zip)).
Proof.
  intros HP. unfold await_generateAsync.
  destruct (generateAsync browser zip); repeat constructor; apply HP.
Qed.

Lemma handleDownloadZip_events browser s :
  Forall export_event (trace (handleDownloadZip browser s)).
Proof.
  unfold handleDownloadZip.
  destruct (negb (truthy_str (originalImage s)) || _); [apply Forall_trace_ret |].
  apply Forall_trace_bind; [now apply Forall_trace_emit | intros _].
  apply Forall_trace_try_catch.
  - apply Forall_trace_bind; [repeat constructor | intros blob].
    apply Forall_trace_bind; [now apply add_generated_events | intros zip].
    apply Forall_trace_bind; [now apply await_generateAsync_events | intros content].
    apply Forall_trace_bind; [now apply Forall_trace_emit | intros _].
    now apply Forall_trace_emit.
  - intros e.
    apply Forall_trace_bind; [now apply Forall_trace_emit | intros _].
    apply Forall_trace_bind; [now apply Forall_trace_emit | intros _].
    now apply Forall_trace_emit.
Qed.

Lemma run_events_export t :
  Forall export_event t ->
  forall s,
    originalImage (run_events s t) = originalImage s /\
    generatedImages (run_events s t) = generatedImages s /\
    isLoading (run_events s t) = isLoading s /\
    isObjectRotationOnly (run_events s t) = isObjectRotationOnly s.
Proof.
  induction 1 as [| e rest He _ IH]; intros s.
  - cbn. auto.
  - cbn [run_events fold_left]. fold (run_events (apply_event s e) rest).
    destruct (IH (apply_event s e)) as (Ho & Hg & Hl & Hm).
    rewrite Ho, Hg, Hl, Hm. destruct e; cbn in He; try contradiction; cbn; auto.
Qed.

(** X17: an export, whatever the browser does and in whatever state it is
    started, only touches the status and the error: the original image,
    the generated images, the loading flag and the rotation mode stay as
    they are, and so do the result cells of the page and whether the run
    counts as finished. *)
Theorem export_keeps_images browser s :
  let s' := exec (handleDownloadZip browser s) s in
  originalImage s' = originalImage s /\
  generatedImages s' = generatedImages s /\
  isLoading s' = isLoading s /\
  isObjectRotationOnly s' = isObjectRotationOnly s /\
  isFinished s' = isFinished s /\
  cells (render s') = cells (render s).
Proof.
  intros s'.
  destruct (run_events_export _ (handleDownloadZip_events browser s) s)
    as (Ho & Hg & Hl & Hm).
  fold (exec (handleDownloadZip browser s) s) in Ho, Hg, Hl, Hm. fold s' in Ho, Hg, Hl, Hm.
  repeat split; auto.
  - unfold isFinished. now rewrite Hl, Hg.
  - unfold render, render_cell. cbn [cells]. now rewrite Hl, Hg.
Qed.

Lemma archive_of_app_no_link t1 t2 :
  Forall no_link t1 -> archive_of (t1 ++ t2) = archive_of t2.
Proof.
  induction 1 as [| e rest He _ IH]; [reflexivity |].
  cbn [app archive_of]. destruct e; cbn in He; try contradiction; exact IH.
Qed.

Lemma bind_thrown {A B} (m : M A) (k : A -> M B) e :
  result (bind m k) = Thrown e ->
  (result m = Thrown e /\ trace (bind m k) = trace m) \/
  (exists a, result m = Returned a /\ result (k a) = Thrown e /\
             trace (bind m k) = (trace m ++ trace (k a))%list).
Proof.
  unfold bind, result, trace. destruct m as [t [a | e']]; cbn.
  - intros H. right. exists a. destruct (k a) as [t' r]. cbn in *. auto.
  - intros [= ->]. left. auto.
Qed.

Lemma bind_of_returned {A B} (m : M A) (k : A -> M B) a :
  result m = Returned a ->
  bind m k = ((trace m ++ trace (k a))%list, result (k a)).
Proof.
  unfold bind, result, trace. destruct m as [t r]. cbn. intros ->.
  now destruct (k a).
Qed.

Lemma export_try_thrown browser s e :
  result (export_try browser s) = Thrown e -> Forall no_link (trace (export_try browser s)).
Proof.
  intros H. unfold export_try in *.
  destruct (bind_thrown _ _ _ H) as [[_ ->] | (blob & _ & H1 & ->)].
  { repeat constructor. }
  apply Forall_app. split; [repeat constructor |].
  destruct (bind_thrown _ _ _ H1) as [[_ ->] | (zip & _ & H2 & ->)].
  { now apply add_generated_events. }
  apply Forall_app. split; [now apply add_generated_events |].
  destruct (bind_thrown _ _ _ H2) as [[_ ->] | (content & _ & H3 & ->)].
  { now apply await_generateAsync_events. }
  exfalso.
  destruct (bind_thrown _ _ _ H3) as [[H4 _] | (u & _ & H4 & _)]; discriminate H4.
Qed.

Lemma export_try_returned browser s u :
  result (export_try browser s) = Returned u ->
  exists t content,
    trace (export_try browser s)
      = (t ++ [LinkClick "rotated-images.zip" content;
               SetStatus "Download complete!"])%list /\
    Forall no_link t /\ Forall sets_no_error t.
Proof.
  intros H. unfold export_try in *.
  destruct (bind_returned _ _ _ H) as (blob & _ & H1 & ->).
  destruct (bind_returned _ _ _ H1) as (zip & _ & H2 & ->).
  destruct (bind_returned _ _ _ H2) as (content & _ & H3 & ->).
  rewrite trace_emit_then. cbn [trace emit fst].
  exists (fst (await_fetch browser 0 (url_of (originalImage s))) ++
          fst (add_generated browser (generatedImages s) 0
                 (zip_file [] "original.png" blob)) ++
          fst (await_generateAsync browser zip))%list, content.
  split; [| split].
  - rewrite <- !app_assoc. reflexivity.
  - apply Forall_app. split; [repeat constructor |].
    apply Forall_app. split; [now apply add_generated_events |].
    now apply await_generateAsync_events.
  - apply Forall_app. split; [repeat constructor |].
    apply Forall_app. split; [now apply add_generated_events |].
    now apply await_generateAsync_events.
Qed.

(** X18: the three outcomes of an export.  Either the guard stops it and
    nothing happens; or it offers an archive, ends with the status
    "Download complete!" and leaves the error as it found it; or it offers
    no archive and ends with the error "Failed to create ZIP file." and
    the status "Failed". *)
Theorem export_three_outcomes browser s :
  let t := trace (handleDownloadZip browser s) in
  let s' := run_events s t in
  (t = [] /\
   (truthy_str (originalImage s) = false \/ (List.length (generatedImages s) < 3)%nat)) \/
  ((exists content, archive_of t = Some content) /\
   status s' = "Download complete!" /\ error s' = error s) \/
  (archive_of t = None /\
   status s' = "Failed" /\ error s' = "Failed to create ZIP file.").
Proof.
  cbn zeta. unfold handleDownloadZip.
  destruct (negb (truthy_str (originalImage s))) eqn:Ho; cbn [orb].
  { left. split; [reflexivity |]. left. now apply negb_true_iff. }
  destruct (List.length (generatedImages s) <? 3)%nat eqn:Hl.
  { left. split; [reflexivity |]. right. now apply Nat.ltb_lt. }
  right. rewrite trace_emit_then.
  match goal with
  | |- context [try_catch ?b ?h] =>
      destruct (try_catch_cases b h) as [(u & Hret & ->) | (e & Hthrow & ->)]
  end.
  - left. destruct (export_try_returned browser s u Hret) as (t & content & Ht & Hnl & Hne).
    unfold export_try in Ht. rewrite Ht.
    split; [| split].
    + exists content. rewrite app_comm_cons, archive_of_app_no_link; [reflexivity |].
      constructor; [exact I | exact Hnl].
    + rewrite app_comm_cons.
      replace [LinkClick "rotated-images.zip" content; SetStatus "Download complete!"]
        with ([LinkClick "rotated-images.zip" content] ++ [SetStatus "Download complete!"])%list
        by reflexivity.
      rewrite app_assoc, run_events_app. reflexivity.
    + apply run_events_sets_no_error.
      constructor; [exact I |]. apply Forall_app. split; [exact Hne | repeat constructor].
  - right. pose proof (export_try_thrown browser s e Hthrow) as Hnl.
    unfold export_try in Hnl.
    split; [| split].
    + rewrite app_comm_cons. rewrite archive_of_app_no_link; [reflexivity |].
      constructor; [exact I | exact Hnl].
    + rewrite app_comm_cons, run_events_app. reflexivity.
    + rewrite app_comm_cons, run_events_app. reflexivity.
Qed.

Lemma nat_str_inj n n' : nat_str n = nat_str n' -> n = n'.
Proof.
  unfold nat_str. intros H.
  apply Unsigned.to_uint_inj.
  assert (Hsome : Some (Nat.to_uint n) = Some (Nat.to_uint n')).
  { rewrite <- !NilEmpty.usu. now rewrite H. }
  now injection Hsome.
Qed.

Lemma list_ascii_of_string_app s t :
  list_ascii_of_string (s ++ t) = (list_ascii_of_string s ++ list_ascii_of_string t)%list.
Proof.
  induction s as [| a s IH]; [reflexivity |].
  rewrite append_cons. cbn [list_ascii_of_string app]. now rewrite IH.
Qed.

Lemma append_inv_tail s s' t : s ++ t = s' ++ t -> s = s'.
Proof.
  intros H. apply (f_equal list_ascii_of_string) in H.
  rewrite !list_ascii_of_string_app in H. apply app_inv_tail in H.
  rewrite <- (string_of_list_ascii_of_string s), <- (string_of_list_ascii_of_string s').
  now rewrite H.
Qed.

Lemma generated_name_inj i j :
  "generated_" ++ nat_str i ++ ".png" = "generated_" ++ nat_str j ++ ".png" -> i = j.
Proof.
  intros H. apply nat_str_inj.
  change ("generated_" ++ nat_str i ++ ".png")
    with (String "g" (String "e" (String "n" (String "e" (String "r" (String "a"
          (String "t" (String "e" (String "d" (String "_" (nat_str i ++ ".png")))))))))))
    in H.
  change ("generated_" ++ nat_str j ++ ".png")
    with (String "g" (String "e" (String "n" (String "e" (String "r" (String "a"
          (String "t" (String "e" (String "d" (String "_" (nat_str j ++ ".png")))))))))))
    in H.
  injection H as H. now apply append_inv_tail in H.
Qed.

Lemma zip_file_fresh zip name data :
  ~ In name (map fst zip) -> zip_file zip name data = (zip ++ [(name, data)])%list.
Proof.
  induction zip as [| [n d] rest IH]; cbn; intros Hfresh.
  - reflexivity.
  - destruct (String.eqb_spec n name) as [-> | Hne].
    + contradiction Hfresh. now left.
    + rewrite IH; [reflexivity |]. intros Hin. apply Hfresh. now right.
Qed.

Section ExportSucceeds.

Variable browser : Browser.
Variable blob_of : nat -> string -> Blob.
Hypothesis fetch_ok : forall k url, fetch_blob browser k url = Returned (blob_of k url).

Lemma add_generated_ok images :
  forall i zip,
    (forall j, (i < j)%nat ->
       ~ In ("generated_" ++ nat_str j ++ ".png") (map fst zip)) ->
    result (add_generated browser images i zip)
      = Returned (zip ++ generated_entries blob_of images i)%list.
Proof using fetch_ok.
  induction images as [| g rest IH]; intros i zip Hfresh; cbn [add_generated generated_entries].
  - now rewrite app_nil_r.
  - unfold bind, await_fetch. rewrite fetch_ok.
    specialize (IH (S i)
      (zip_file zip ("generated_" ++ nat_str (i + 1) ++ ".png") (blob_of (S i) (src g)))).
    unfold result in *.
    destruct (add_generated browser rest (S i) _) as [t' r']. cbn [snd] in *.
    rewrite IH.
    + rewrite zip_file_fresh by (apply Hfresh; lia).
      now rewrite <- app_assoc.
    + intros j Hj. rewrite zip_file_fresh by (apply Hfresh; lia).
      rewrite map_app, in_app_iff. intros [Hin | [Heq | []]].
      * apply (Hfresh j); [lia | exact Hin].
      * cbn in Heq. apply generated_name_inj in Heq. lia.
Qed.

End ExportSucceeds.

(** X19: the archive for any number of generated images.  When the guard
    lets the export through and every fetch and the compression succeed,
    the archive offered has one entry more than there are generated
    images: [original.png] first, then [generated_1.png], [generated_2.png],
    ... in the order of [generatedImages], each with the content fetched
    for it; the names never collide, so no entry replaces another. *)
Theorem export_archive browser blob_of s :
  truthy_str (originalImage s) = true ->
  (3 <= List.length (generatedImages s))%nat ->
  (forall k url, fetch_blob browser k url = Returned (blob_of k url)) ->
  (forall zip, generateAsync browser zip = Returned tt) ->
  archive_of (trace (handleDownloadZip browser s)) =
  Some (("original.png", blob_of 0%nat (url_of (originalImage s)))
          :: generated_entries blob_of (generatedImages s) 0).
Proof.
  intros Ho Hlen Hfetch Hzip. unfold handleDownloadZip.
  rewrite Ho. apply Nat.ltb_ge in Hlen. rewrite Hlen. cbn [negb orb].
  rewrite trace_emit_then. cbn [archive_of].
  assert (Hloop :
    result (add_generated browser (generatedImages s) 0
              (zip_file [] "original.png" (blob_of 0%nat (url_of (originalImage s)))))
    = Returned ([("original.png", blob_of 0%nat (url_of (originalImage s)))]
                  ++ generated_entries blob_of (generatedImages s) 0)%list).
  { apply (add_generated_ok browser blob_of Hfetch).
    intros j _ [Heq | []]. cbn in Heq. discriminate Heq. }
  assert (Hgen : forall zip,
            await_generateAsync browser zip = ([GenerateAsync (Returned tt)], Returned zip)).
  { intros zip. unfold await_generateAsync. now rewrite Hzip. }
  match goal with
  | |- context [try_catch ?b ?h] =>
      assert (Hbody : exists t,
                Forall no_link t /\
                b = ((t ++ [LinkClick "rotated-images.zip"
                              ([("original.png", blob_of 0%nat (url_of (originalImage s)))]
                                 ++ generated_entries blob_of (generatedImages s) 0);
                            SetStatus "Download complete!"])%list, Returned tt))
  end.
  { rewrite (bind_of_returned (await_fetch browser 0 (url_of (originalImage s))) _
               (blob_of 0%nat (url_of (originalImage s))))
      by (unfold await_fetch, result; cbn; apply Hfetch).
    cbn beta. rewrite (bind_of_returned _ _ _ Hloop). cbn beta.
    rewrite Hgen. cbn [bind emit trace result fst snd app].
    exists (trace (await_fetch browser 0 (url_of (originalImage s))) ++
            trace (add_generated browser (generatedImages s) 0
                     (zip_file [] "original.png"
                        (blob_of 0%nat (url_of (originalImage s))))) ++
            [GenerateAsync (Returned tt)])%list.
    split.
    - apply Forall_app. split; [unfold await_fetch; repeat constructor |].
      apply Forall_app. split; [now apply add_generated_events | repeat constructor].
    - rewrite <- !app_assoc. reflexivity. }
  destruct Hbody as (t & Hnl & ->).
  unfold try_catch. cbn [trace fst].
  rewrite archive_of_app_no_link by exact Hnl. reflexivity.
Qed.

Lemma export_archive_witness :
  let s := {| originalImage := Some "data:image/png;base64,QUJD";
              generatedImages :=
                [ {| src := "a"; prompt := VNull |}; {| src := "b"; prompt := VNull |};
                  {| src := "c"; prompt := VNull |}; {| src := "d"; prompt := VNull |} ];
              isObjectRotationOnly := false; isLoading := false;
              status := ""; error := "" |} in
  archive_of (trace (handleDownloadZip Demo.working_browser s)) =
  Some [("original.png", BlobOf "data:image/png;base64,QUJD");
        ("generated_1.png", BlobOf "a"); ("generated_2.png", BlobOf "b");
        ("generated_3.png", BlobOf "c"); ("generated_4.png", BlobOf "d")].
Proof.
  intros s.
  apply (export_archive Demo.working_browser (fun _ url => BlobOf url) s).
  - reflexivity.
  - cbn. lia.
  - intros k url. reflexivity.
  - intros zip. reflexivity.
Defined.

(* ================================================================== *)
(** ** Steady states, once more *)

Lemma pick_spec {A} n :
  forall (l before after : list A) t,
    pick n l = Some (before, t, after) -> l = (before ++ t :: after)%list.
Proof.
  induction n as [| n IH]; intros [| x rest] before after t; cbn; try discriminate.
  - now intros [= <- <- <-].
  - destruct (pick n rest) as [[[b' t'] a'] |] eqn:Hpick; [| discriminate].
    intros [= <- <- <-]. cbn. now rewrite (IH _ _ _ _ Hpick).
Qed.

Lemma reachable_resume n p : reachable p -> reachable (resume n p).
Proof.
  destruct p as [s waiting]. unfold resume. cbn [fst snd].
  destruct (pick n waiting) as [[[before t] after] |] eqn:Hpick; [| auto].
  rewrite (pick_spec _ _ _ _ _ Hpick). apply reach_resume.
Qed.

Lemma reachable_resume_first n : forall p, reachable p -> reachable (resume_first n p).
Proof.
  induction n as [| n IH]; intros p Hp; [exact Hp |].
  cbn [resume_first]. apply IH. now apply reachable_resume.
Qed.

Lemma steady_data_url s : steady s -> data_url (originalImage s).
Proof.
  intros Hs. destruct (reachable_frame_ok _ Hs) as [(_ & (_ & _ & Hurl) & _) | (_ & H)].
  - exact Hurl.
  - destruct H as (before & r & after & Heq & _). cbn in Heq. now destruct before.
Qed.

(** X20: what every steady state of the page looks like, whatever
    handlers overlapped on the way: nothing is loading and no spinner is
    shown; there are at most three generated images, and none without an
    original image; the original image, when there is one, is a data URL;
    and the status is empty, "Failed", "Processing complete!", "Download
    complete!", or the label of a stage (left behind by a run whose [catch]
    clause threw), never "Reading image..." or "Creating ZIP file...". *)
Theorem steady_invariant s :
  steady s ->
  isLoading s = false /\
  (List.length (generatedImages s) <= 3)%nat /\
  (generatedImages s <> [] -> truthy_str (originalImage s) = true) /\
  (resting_status (status s) \/ stage_label (status s)) /\
  status s <> "Reading image..." /\
  status s <> "Creating ZIP file..." /\
  data_url (originalImage s) /\
  Forall (fun c => cell_spinner c = false) (cells (render s)).
Proof.
  intros Hs.
  destruct (steady_shape s Hs) as (Hl & Hn & Ho).
  pose proof (steady_status s Hs) as Hst.
  pose proof (steady_data_url s Hs) as Hurl.
  split; [exact Hl |]. split; [exact Hn |]. split; [exact Ho |].
  split; [exact Hst |].
  split; [| split; [| split; [exact Hurl |]]].
  - intros Heq. rewrite Heq in Hst.
    destruct Hst as [[H | [H | [H | H]]] | [H | (i & Hi & H)]]; discriminate H.
  - intros Heq. rewrite Heq in Hst.
    destruct Hst as [[H | [H | [H | H]]] | [H | (i & Hi & H)]]; discriminate H.
  - cbn. unfold render_cell. rewrite Hl. cbn. repeat constructor.
Qed.

Lemma steady_invariant_witness :
  let s := exec (handleImageUpload (Demo.svc_failing_at 1 ErrorNoText) initialState
                   (Some Demo.file)) initialState in
  steady s /\
  isLoading s = false /\
  List.length (generatedImages s) = 1%nat /\
  status s = " 3/4: Generating rotated view 2 of 3..." /\
  stage_label (status s) /\
  data_url (originalImage s).
Proof.
  intros s.
  assert (Hs : steady s).
  { apply steady_upload; [apply steady_init | split; reflexivity]. }
  destruct (steady_invariant s Hs) as (Hl & _ & _ & Hst & _ & _ & Hurl & _).
  split; [exact Hs |].
  split; [exact Hl |].
  split; [reflexivity |].
  split; [reflexivity |].
  split; [| exact Hurl].
  destruct Hst as [[H | [H | [H | H]]] | H]; [discriminate H .. | exact H].
Defined.

(** X21: the error and the status at rest.  A run on its own that ends
    with an error set ends with the status "Failed", or empty when the
    file could not be read; an export on its own ends with the status
    "Failed" next to its error, or with "Download complete!" next to the
    error it found.  But the download and reset buttons stay enabled while
    an export waits: when, after a complete run, the user clicks Download,
    then Reset, and uploads again, and the export fails while the new run
    is under way, the page comes to rest finished, showing the error
    "Failed to create ZIP file." while the status is "Processing
    complete!". *)
Theorem error_and_status_at_rest :
  (forall svc s file,
     let s' := exec (handleImageUpload svc s (Some file)) s in
     error s' <> "" -> status s' = "Failed" \/ status s' = "") /\
  (forall browser s,
     let s' := exec (handleDownloadZip browser s) s in
     s' = s \/
     (status s' = "Download complete!" /\ error s' = error s) \/
     (status s' = "Failed" /\ error s' = "Failed to create ZIP file.")) /\
  (snd Overlap.exporting <> [] /\
   can_download_or_reset (render (fst Overlap.exporting)) = true /\
   snd Overlap.at_rest = [] /\
   steady (fst Overlap.at_rest) /\
   isFinished (fst Overlap.at_rest) = true /\
   error (fst Overlap.at_rest) = "Failed to create ZIP file." /\
   status (fst Overlap.at_rest) = "Processing complete!" /\
   banner (render (fst Overlap.at_rest)) = Some (ErrorText "Failed to create ZIP file.")).
Proof.
  split; [| split].
  - intros svc s file. apply upload_error_replaces_status.
  - intros browser s. apply export_outcome.
  - split; [discriminate |].
    split; [reflexivity |].
    split; [reflexivity |].
    split; [| repeat split; reflexivity].
    assert (H1 : reachable Overlap.exporting).
    { exact (reach_download Demo.failing_browser Demo.finished [] steady_finished eq_refl). }
    assert (H2 : reachable Overlap.cleared).
    { exact (reach_reset (fst Overlap.exporting) (snd Overlap.exporting) H1 eq_refl). }
    assert (H3 : reachable Overlap.reading).
    { exact (reach_upload (geminiService Demo.ai) (fst Overlap.cleared) (snd Overlap.cleared)
               (Some Demo.file) H2 (conj eq_refl eq_refl)). }
    exact (reachable_resume_first 7 _ (reachable_resume 1 _ H3)).
Qed.

Lemma error_and_status_at_rest_witness :
  let s' := exec (handleImageUpload Demo.svc_two_prompts initialState (Some Demo.file))
              initialState in
  error s' <> "" /\ status s' = "Failed".
Proof.
  intros s'.
  assert (Herr : error s' <> "") by discriminate.
  split; [exact Herr |].
  destruct (proj1 error_and_status_at_rest Demo.svc_two_prompts initialState Demo.file Herr)
    as [Hst | Hst].
  - exact Hst.
  - discriminate Hst.
Defined.

(* ================================================================== *)
(** ** The prompt overlay of a grid cell *)

(** X22: the clicks of a [GridCell].  With a prompt, the info button opens
    the overlay; a click on the panel leaves it open; a click on the
    overlay around the panel, or on the close button inside the panel,
    closes it.  Without a prompt no element is rendered and no click
    changes anything.  While the overlay is not rendered, only the info
    button can change whether it is visible. *)
Theorem gridcell_clicks prompt :
  (truthy prompt = true ->
   click prompt false InfoButton = true /\
   click prompt true Panel = true /\
   click prompt true Overlay = false /\
   click prompt true CloseButton = false /\
   (forall el, el <> InfoButton -> click prompt false el = false)) /\
  (truthy prompt = false ->
   forall visible el,
     rendered prompt visible el = false /\ click prompt visible el = visible) /\
  (forall visible el,
     rendered prompt visible Overlay = false -> el <> InfoButton ->
     click prompt visible el = visible).
Proof.
  unfold click, rendered. split; [| split].
  - intros ->. cbn. repeat split. intros el Hel. destruct el; try reflexivity.
    now contradiction Hel.
  - intros ->. intros visible el. destruct el; auto.
  - intros visible el Hov Hel. destruct el; try (now contradiction Hel); now rewrite Hov.
Qed.

Lemma gridcell_clicks_witness :
  click (VString "low-angle hero") false InfoButton = true /\
  click (VString "low-angle hero") true Panel = true /\
  click (VString "low-angle hero") true CloseButton = false /\
  click VUndefined true Overlay = true.
Proof.
  destruct (gridcell_clicks (VString "low-angle hero")) as (Hwith & _ & _).
  destruct (Hwith eq_refl) as (Hopen & Hpanel & _ & Hclose & _).
  split; [exact Hopen |].
  split; [exact Hpanel |].
  split; [exact Hclose |].
  destruct (gridcell_clicks VUndefined) as (_ & Hwithout & _).
  exact (proj2 (Hwithout eq_refl true Overlay)).
Defined.
